(** * Verification of the array node compiler and of the [object] / [string] rules

    Shallow embedding of
    - [src/Compiler/Nodes/Array.ts]   (class [ArrayCompiler]),
    - the [object] validation rule    ([validate], [compile]),
    - the [string] validation rule    ([validate], [compile]).

    Javascript values are an inductive type, the error reporter is the log of
    the [report] calls it received (or, where it matters how a [report] call
    ends, any object with a [report] method), and a compile pass is a
    state-and-error monad over the buffer and the compiler counters.  The
    guard that [compile] writes is read back from the written lines. *)

From Stdlib Require Import Ascii.
From stdpp Require Import base option list strings pretty gmap.

Set Warnings "-register-all".
Local Open Scope string_scope.
Local Open Scope list_scope.

(** ** Javascript values *)

(** The values a validator can receive.  [typeof] and [Array.isArray] only
    look at the kind of a value, so a number is kept as an integer payload.
    [VObject] stands for every non-callable, non-array object (plain objects,
    dates, class instances ...); a function is a callable object and carries
    keyed properties as well. *)
Inductive Value : Type :=
| VUndefined
| VNull
| VBoolean (b : bool)
| VNumber (n : Z)
| VBigInt (n : Z)
| VString (s : string)
| VSymbol (description : string)
| VFunction (props : list (string * Value))
| VArray (items : list Value)
| VObject (props : list (string * Value)).

(** [typeof v]: [typeof null] is ["object"], and arrays are objects. *)
Definition typeof (v : Value) : string :=
  match v with
  | VUndefined => "undefined"
  | VNull => "object"
  | VBoolean _ => "boolean"
  | VNumber _ => "number"
  | VBigInt _ => "bigint"
  | VString _ => "string"
  | VSymbol _ => "symbol"
  | VFunction _ => "function"
  | VArray _ => "object"
  | VObject _ => "object"
  end.

(** [Array.isArray(v)] *)
Definition isArray (v : Value) : bool :=
  match v with VArray _ => true | _ => false end.

(** [v === null] *)
Definition isNull (v : Value) : bool :=
  match v with VNull => true | _ => false end.

(** Truthiness, as used by [if (...)], [&&] and [!]. *)
Definition truthy (v : Value) : bool :=
  match v with
  | VUndefined | VNull => false
  | VBoolean b => b
  | VNumber n | VBigInt n => negb (n =? 0)%Z
  | VString s => negb (String.eqb s "")
  | VSymbol _ | VFunction _ | VArray _ | VObject _ => true
  end.

(** A value is absent when it is [undefined] or [null]. *)
Definition absent (v : Value) : bool :=
  match v with VUndefined | VNull => true | _ => false end.

(** How a call ends: it returns, or an exception unwinds it. *)
Inductive Completion (A : Type) : Type :=
| Returns (a : A)
| Throws (e : Value).
Arguments Returns {A} a.
Arguments Throws {A} e.

(** ** The rule contract and the error reporter *)

(** What [compile()] of a rule returns; the rules of a schema node are such
    records. *)
Record CompiledRule : Type := {
  allowUndefineds : bool;
  async : bool;
  name : string;
}.

(** One call [errorReporter.report(pointer, rule, message,
    arrayExpressionPointer)]. *)
Record Report : Type := {
  report_pointer : string;
  report_rule : string;
  report_message : string;
  report_arrayExpressionPointer : option string;
}.

(** The error reporter is an external collaborator that accumulates the
    reports it is given; it is modelled by the ordered log of its [report]
    calls. *)
Definition ErrorReporter : Type := list Report.

Definition report (pointer rule message : string)
    (arrayExpressionPointer : option string) (er : ErrorReporter) : ErrorReporter :=
  er ++ [ {| report_pointer := pointer;
             report_rule := rule;
             report_message := message;
             report_arrayExpressionPointer := arrayExpressionPointer |} ].

(** The third argument of [validate], as far as the two rules destructure
    it. *)
Record Context : Type := {
  errorReporter : ErrorReporter;
  pointer : string;
  arrayExpressionPointer : option string;
}.

(** *** The [object] rule *)

Definition object_DEFAULT_MESSAGE : string := "object validation failed".

Definition object_compile : CompiledRule :=
  {| allowUndefineds := false; async := false; name := "object" |}.

(** [typeof (value) !== 'object' || Array.isArray(value) || value === null] *)
Definition object_rejects (value : Value) : bool :=
  negb (String.eqb (typeof value) "object") || isArray value || isNull value.

(** The result is the error reporter after the call. *)
Definition object_validate (value : Value) (ctx : Context) : Completion ErrorReporter :=
  if object_rejects value
  then Returns (report (pointer ctx) "object" object_DEFAULT_MESSAGE
                       (arrayExpressionPointer ctx) (errorReporter ctx))
  else Returns (errorReporter ctx).

(** *** The [string] rule *)

Definition string_DEFAULT_MESSAGE : string := "string validation failed".

Definition string_compile : CompiledRule :=
  {| allowUndefineds := false; async := false; name := "string" |}.

(** [typeof (value) !== 'string'] *)
Definition string_rejects (value : Value) : bool :=
  negb (String.eqb (typeof value) "string").

Definition string_validate (value : Value) (ctx : Context) : Completion ErrorReporter :=
  if string_rejects value
  then Returns (report (pointer ctx) "string" string_DEFAULT_MESSAGE
                       (arrayExpressionPointer ctx) (errorReporter ctx))
  else Returns (errorReporter ctx).

(** *** The reporter as the caller supplies it *)

(** [validate] calls the [report] method of the reporter it is handed, with
    no [try]: the method is the caller's code and may raise, as a reporter
    that bails out on the first violation does.  [R] is the state of the
    reporter. *)
Record Reporter (R : Type) : Type := {
  reporter_report : string -> string -> string -> option string -> R -> Completion R;
}.
Arguments reporter_report {R} _ _ _ _ _ _.

(** The [validate] of the [string] rule, on any reporter. *)
Definition string_validate_on {R : Type} (reporter : Reporter R) (value : Value)
    (pointer : string) (arrayExpressionPointer : option string) (state : R) : Completion R :=
  if string_rejects value
  then reporter_report reporter pointer "string" string_DEFAULT_MESSAGE
                       arrayExpressionPointer state
  else Returns state.

(** The reporter that collects every report. *)
Definition collecting : Reporter ErrorReporter :=
  {| reporter_report := fun pointer rule message aep er =>
       Returns (report pointer rule message aep er) |}.

(** A reporter that raises on the first report. *)
Definition bailing : Reporter ErrorReporter :=
  {| reporter_report := fun pointer rule message aep er =>
       Throws (VObject [("name", VString "ValidationException");
                        ("message", VString message)]) |}.

(** ** Schema trees *)

(** [ValidationField]: a field is named by a literal key or by an identifier
    of the generated code (an index variable). *)
Inductive FieldType : Type := FieldLiteral | FieldIdentifier.

Record ValidationField : Type := {
  field_name : string;
  field_type : FieldType;
}.

(** [SchemaLiteral | SchemaObject | SchemaArray].  The children of an object
    are listed as [Object.keys] enumerates them, each key once with its
    node. *)
Inductive SchemaNode : Type :=
| SchemaLiteral (subtype : string) (rules : list CompiledRule)
| SchemaObject (rules : list CompiledRule) (children : list (string * SchemaNode))
| SchemaArray (rules : list CompiledRule) (each : option SchemaNode).

Definition node_rules (node : SchemaNode) : list CompiledRule :=
  match node with
  | SchemaLiteral _ rules | SchemaObject rules _ | SchemaArray rules _ => rules
  end.

(** [node.rules.find((rule) => rule.async)], as a condition *)
Definition finds_async (rules : list CompiledRule) : bool :=
  match List.find (fun rule => async rule) rules with
  | Some _ => true
  | None => false
  end.

(** [ArrayCompiler.hasAsyncChildren] on a schema tree. *)
Fixpoint hasAsyncChildren (node : SchemaNode) : bool :=
  if finds_async (node_rules node) then true
  else
    match node with
    | SchemaArray _ (Some each) => hasAsyncChildren each
    | SchemaArray _ None => false
    | SchemaObject _ children =>
        (fix loop (children : list (string * SchemaNode)) : bool :=
           match children with
           | [] => false
           | (_, child) :: rest => if hasAsyncChildren child then true else loop rest
           end) children
    | SchemaLiteral _ _ => false
    end.

(** The loop over the children of an object, as [hasAsyncChildren] unfolds
    to it. *)
Definition any_child_async (children : list (string * SchemaNode)) : bool :=
  (fix loop (children : list (string * SchemaNode)) : bool :=
     match children with
     | [] => false
     | (_, child) :: rest => if hasAsyncChildren child then true else loop rest
     end) children.

(** ** The compile pass *)

(** How a step of the compile pass ends: with a value, or with a fatal
    compile-time error that aborts the pass. *)
Inductive Result (A : Type) : Type :=
| Ok (a : A)
| Fatal (reason : string).
Arguments Ok {A} a.
Arguments Fatal {A} reason.

Inductive LineKind : Type := Statement | Expression | Blank.

(** One entry of the buffer, with the nesting depth it was written at. *)
Record Line : Type := {
  line_depth : nat;
  line_kind : LineKind;
  line_text : string;
}.

(** Modelled from the spec: the class [CompilerBuffer] ([Compiler/Buffer.ts]
    is not among the sources).  It accumulates the generated statements in
    order and tracks the indentation. *)
Record CompilerBuffer : Type := {
  lines : list Line;
  indentation : nat;
}.

(** The state a compile pass threads: the buffer, the two counters of the
    [Compiler] that [ArrayCompiler] increments, and the rest of the compiler,
    whatever it is. *)
Record CompilerState (Extra : Type) : Type := {
  buffer : CompilerBuffer;
  arrayIndexVariableCounter : nat;
  outVariableCounter : nat;
  extra : Extra;
}.
Arguments buffer {Extra} _.
Arguments arrayIndexVariableCounter {Extra} _.
Arguments outVariableCounter {Extra} _.
Arguments extra {Extra} _.

Definition Compile (Extra A : Type) : Type :=
  CompilerState Extra -> Result (A * CompilerState Extra).

#[global] Instance Compile_ret {Extra} : MRet (Compile Extra) :=
  fun A a st => Ok (a, st).

#[global] Instance Compile_bind {Extra} : MBind (Compile Extra) :=
  fun A B k m st =>
    match m st with
    | Ok (a, st') => k a st'
    | Fatal reason => Fatal reason
    end.

Definition with_buffer {Extra} (f : CompilerBuffer -> CompilerBuffer) : Compile Extra unit :=
  fun st => Ok (tt, {| buffer := f (buffer st);
                       arrayIndexVariableCounter := arrayIndexVariableCounter st;
                       outVariableCounter := outVariableCounter st;
                       extra := extra st |}).

(** Modelled from the spec: a write appends one entry at the current
    indent ([Compiler/Buffer.ts] is not among the sources). *)
Definition write (kind : LineKind) (text : string) (b : CompilerBuffer) : CompilerBuffer :=
  {| lines := lines b ++ [ {| line_depth := indentation b; line_kind := kind; line_text := text |} ];
     indentation := indentation b |}.

(** Modelled from the spec: [writeStatement] appends at the current indent
    ([Compiler/Buffer.ts] is not among the sources). *)
Definition writeStatement {Extra} (text : string) : Compile Extra unit :=
  with_buffer (write Statement text).

(** Modelled from the spec: [writeExpression] appends at the current indent
    ([Compiler/Buffer.ts] is not among the sources). *)
Definition writeExpression {Extra} (text : string) : Compile Extra unit :=
  with_buffer (write Expression text).

(** Modelled from the spec: [newLine] is cosmetic only, it appends an empty
    line ([Compiler/Buffer.ts] is not among the sources). *)
Definition newLine {Extra} : Compile Extra unit :=
  with_buffer (write Blank "").

(** Modelled from the spec: [indent] adjusts the nesting one level up
    ([Compiler/Buffer.ts] is not among the sources). *)
Definition indent {Extra} : Compile Extra unit :=
  with_buffer (fun b => {| lines := lines b; indentation := S (indentation b) |}).

(** Modelled from the spec: [dedent] adjusts the nesting one level down; a
    dedent below zero is fatal at compile time ([Compiler/Buffer.ts] is not
    among the sources). *)
Definition dedent {Extra} : Compile Extra unit :=
  fun st =>
    match indentation (buffer st) with
    | 0 => Fatal "dedent below zero"
    | S n => with_buffer (fun b => {| lines := lines b; indentation := n |}) st
    end.

(** [this.compiler.arrayIndexVariableCounter++] *)
Definition next_arrayIndexVariableCounter {Extra} : Compile Extra nat :=
  fun st => Ok (arrayIndexVariableCounter st,
                {| buffer := buffer st;
                   arrayIndexVariableCounter := S (arrayIndexVariableCounter st);
                   outVariableCounter := outVariableCounter st;
                   extra := extra st |}).

(** [this.compiler.outVariableCounter++] *)
Definition next_outVariableCounter {Extra} : Compile Extra nat :=
  fun st => Ok (outVariableCounter st,
                {| buffer := buffer st;
                   arrayIndexVariableCounter := arrayIndexVariableCounter st;
                   outVariableCounter := S (outVariableCounter st);
                   extra := extra st |}).

(** The [references] every node compiler is built with. *)
Record References : Type := {
  references_outVariable : string;
  references_referenceVariable : string;
  references_parentPointer : list ValidationField;
}.

(** The public fields of a [LiteralCompiler] object that [ArrayCompiler]
    writes and reads, with what the object was built from. *)
Record LiteralCompiler : Type := {
  literal_field : ValidationField;
  literal_subtype : string;
  literal_rules : list CompiledRule;
  literal_references : References;
  disableOutVariable : bool;
  forceValueDeclaration : bool;
  variableName : string;
}.

(** What [ArrayCompiler] uses and [Array.ts] does not define: two methods of
    the [Compiler] that build names and expressions, its dispatcher
    [compileNode], and the constructor and the [compile] method of
    [LiteralCompiler].  The latter return the object as the call leaves it. *)
Class Collaborators : Type := {
  Extra : Type;
  pointerToExpression : ValidationField -> string;
  getVariableExistsName : string -> string;
  compileNode :
    ValidationField -> SchemaNode -> list ValidationField -> string -> string ->
    Compile Extra unit;
  LiteralCompiler_new :
    ValidationField -> string -> list CompiledRule -> References ->
    Compile Extra LiteralCompiler;
  LiteralCompiler_compile : LiteralCompiler -> Compile Extra LiteralCompiler;
}.

(** *** [ArrayCompiler] *)

Record ArrayCompiler : Type := {
  field : ValidationField;
  node_array_rules : list CompiledRule;
  node_each : option SchemaNode;
  references : References;
}.

(** [literal.disableOutVariable = d; literal.forceValueDeclaration = f] *)
Definition set_flags (d f : bool) (literal : LiteralCompiler) : LiteralCompiler :=
  {| literal_field := literal_field literal;
     literal_subtype := literal_subtype literal;
     literal_rules := literal_rules literal;
     literal_references := literal_references literal;
     disableOutVariable := d;
     forceValueDeclaration := f;
     variableName := variableName literal |}.

Definition if_guard_text (existsName variableName : string) : string :=
  "if (" +:+ existsName +:+ " && Array.isArray(" +:+ variableName +:+ ")) {".

Definition for_of_text (variableName indexVariable : string) : string :=
  "for (let [" +:+ indexVariable +:+ "] of " +:+ variableName +:+ ".entries()) {".

Definition for_index_text (variableName indexVariable : string) : string :=
  "for (let " +:+ indexVariable +:+ " = 0; " +:+ indexVariable +:+ " < "
    +:+ variableName +:+ ".length; " +:+ indexVariable +:+ "++) {".

Definition out_declaration_text (outVariable parentOut referenceExpression : string) : string :=
  "const " +:+ outVariable +:+ " = " +:+ parentOut +:+ "[" +:+ referenceExpression +:+ "] = []".

Section ArrayCompiler.
Context `{C : Collaborators}.

Definition declareOutVariable (self : ArrayCompiler) (outVariable : string) : Compile Extra unit :=
  let referenceExpression := pointerToExpression (field self) in
  writeExpression
    (out_declaration_text outVariable (references_outVariable (references self)) referenceExpression).

Definition startIfGuard (variableName : string) : Compile Extra unit :=
  writeStatement (if_guard_text (getVariableExistsName variableName) variableName);;
  indent.

Definition endIfGuard : Compile Extra unit :=
  dedent;;
  writeStatement "}".

Definition startAsyncForLoop (variableName indexVariable : string) : Compile Extra unit :=
  writeStatement (for_of_text variableName indexVariable);;
  indent.

Definition startForLoop (variableName indexVariable : string) : Compile Extra unit :=
  writeStatement (for_index_text variableName indexVariable);;
  indent.

Definition endForLoop : Compile Extra unit :=
  dedent;;
  writeStatement "}".

(** [ArrayCompiler.compile] *)
Definition compile (self : ArrayCompiler) : Compile Extra unit :=
  if bool_decide (length (node_array_rules self) = 0) && negb (bool_decide (is_Some (node_each self)))
  then mret tt
  else
    literal ← LiteralCompiler_new (field self) "array" (node_array_rules self) (references self);
    let literal := set_flags (bool_decide (is_Some (node_each self))) true literal in
    literal ← LiteralCompiler_compile literal;
    match node_each self with
    | None => mret tt
    | Some each =>
        let hasAsyncChildren := hasAsyncChildren each in
        newLine;;
        startIfGuard (variableName literal);;
        i ← next_arrayIndexVariableCounter;
        let indexVariable := "index_" +:+ pretty i in
        o ← next_outVariableCounter;
        let outVariable := "out_" +:+ pretty o in
        declareOutVariable self outVariable;;
        (if hasAsyncChildren
         then startAsyncForLoop (variableName literal) indexVariable
         else startForLoop (variableName literal) indexVariable);;
        newLine;;
        compileNode {| field_name := indexVariable; field_type := FieldIdentifier |}
                    each
                    (references_parentPointer (references self) ++ [field self])
                    (variableName literal)
                    outVariable;;
        endForLoop;;
        endIfGuard
    end.

End ArrayCompiler.

(** *** A small orchestrator, to run [compile] on examples *)

(** The [Compiler] and the [LiteralCompiler] classes ([Compiler/index.ts] and
    [Compiler/Nodes/Literal.ts]) are not among the sources; the sample below
    stands in for them where [compile] is run on a concrete schema.  The
    rest of its compiler state is the counter the value variables are
    numbered with. *)

(** Modelled from the spec: [Compiler.pointerToExpression], the run-time
    expression locating a field: a literal key is quoted, an identifier
    stands for itself. *)
Definition sample_pointerToExpression (f : ValidationField) : string :=
  match field_type f with
  | FieldIdentifier => field_name f
  | FieldLiteral => "'" +:+ field_name f +:+ "'"
  end.

(** Modelled from the spec: [Compiler.getVariableExistsName], the name of the
    binding that holds whether the value exists. *)
Definition sample_getVariableExistsName (variableName : string) : string :=
  variableName +:+ "_exists".

(** Modelled from the spec: the constructor of [LiteralCompiler]; it draws
    the name of the value variable, and both flags start unset. *)
Definition sample_LiteralCompiler_new (f : ValidationField) (subtype : string)
    (rules : list CompiledRule) (refs : References) : Compile nat LiteralCompiler :=
  fun st =>
    Ok ({| literal_field := f;
           literal_subtype := subtype;
           literal_rules := rules;
           literal_references := refs;
           disableOutVariable := false;
           forceValueDeclaration := false;
           variableName := "val_" +:+ pretty (extra st) |},
        {| buffer := buffer st;
           arrayIndexVariableCounter := arrayIndexVariableCounter st;
           outVariableCounter := outVariableCounter st;
           extra := S (extra st) |}).

(** Modelled from the spec: the call of one rule, awaited when the rule is
    asynchronous. *)
Definition sample_rule_text (variableName : string) (rule : CompiledRule) : string :=
  (if async rule then "await " else "") +:+
  "validations." +:+ name rule +:+ ".validate(" +:+ variableName +:+ ")".

(** Modelled from the spec: each rule is run in declared order. *)
Fixpoint sample_write_rules (variableName : string) (rules : list CompiledRule) : Compile nat unit :=
  match rules with
  | [] => mret tt
  | rule :: rest =>
      writeExpression (sample_rule_text variableName rule);;
      sample_write_rules variableName rest
  end.

(** Modelled from the spec: [LiteralCompiler.compile].  A node with neither
    rules nor a forced declaration compiles to nothing; otherwise it declares
    a binding for the value and one for its existence, runs the rules and,
    unless the output is disabled, assigns the value into the destination
    output at the field's location. *)
Definition sample_LiteralCompiler_compile (l : LiteralCompiler) : Compile nat LiteralCompiler :=
  if bool_decide (length (literal_rules l) = 0) && negb (forceValueDeclaration l)
  then mret l
  else
    let expression := sample_pointerToExpression (literal_field l) in
    writeExpression ("const " +:+ variableName l +:+ " = "
                       +:+ references_referenceVariable (literal_references l)
                       +:+ "[" +:+ expression +:+ "]");;
    writeExpression ("const " +:+ sample_getVariableExistsName (variableName l)
                       +:+ " = exists(" +:+ variableName l +:+ ")");;
    sample_write_rules (variableName l) (literal_rules l);;
    (if disableOutVariable l
     then mret tt
     else writeExpression (references_outVariable (literal_references l)
                             +:+ "[" +:+ expression +:+ "] = " +:+ variableName l));;
    mret l.

(** The sample collaborators around a dispatcher. *)
Definition sample_with (dispatch :
    ValidationField -> SchemaNode -> list ValidationField -> string -> string ->
    Compile nat unit) : Collaborators :=
  {| Extra := nat;
     pointerToExpression := sample_pointerToExpression;
     getVariableExistsName := sample_getVariableExistsName;
     compileNode := dispatch;
     LiteralCompiler_new := sample_LiteralCompiler_new;
     LiteralCompiler_compile := sample_LiteralCompiler_compile |}.

(** Modelled from the spec: [Compiler.compileNode], the dispatcher.  A
    literal goes to the literal compiler, an array to
    [ArrayCompiler.compile]; of an object only its own rule chain is compiled
    (its children play no part in the examples). *)
Fixpoint sample_compileNode (f : ValidationField) (node : SchemaNode)
    (parentPointer : list ValidationField) (referenceVariable outVariable : string)
    {struct node} : Compile nat unit :=
  let refs := {| references_outVariable := outVariable;
                 references_referenceVariable := referenceVariable;
                 references_parentPointer := parentPointer |} in
  match node with
  | SchemaLiteral subtype rules =>
      l ← sample_LiteralCompiler_new f subtype rules refs;
      sample_LiteralCompiler_compile l;;
      mret tt
  | SchemaObject rules _ =>
      l ← sample_LiteralCompiler_new f "object" rules refs;
      sample_LiteralCompiler_compile l;;
      mret tt
  | SchemaArray rules each =>
      @compile (sample_with sample_compileNode)
        {| field := f; node_array_rules := rules; node_each := each; references := refs |}
  end.

Definition sample : Collaborators := sample_with sample_compileNode.

Definition initial_state (d : nat) : CompilerState nat :=
  {| buffer := {| lines := []; indentation := d |};
     arrayIndexVariableCounter := 0;
     outVariableCounter := 0;
     extra := 0 |}.

(** ** The emitted guard, read back from the text and run *)

Definition line (d : nat) (kind : LineKind) (text : string) : Line :=
  {| line_depth := d; line_kind := kind; line_text := text |}.

(** The characters of a Javascript identifier: letters, digits, [_] and
    [$]. *)
Definition identifier_char (c : Ascii.ascii) : bool :=
  let n := Ascii.nat_of_ascii c in
  (((48 <=? n) && (n <=? 57)) || ((65 <=? n) && (n <=? 90)) || ((97 <=? n) && (n <=? 122))
   || (n =? 95) || (n =? 36))%nat.

(** A name made of identifier characters only. *)
Fixpoint is_word (s : string) : bool :=
  match s with
  | EmptyString => true
  | String c rest => identifier_char c && is_word rest
  end.

(** [strip_prefix p s]: what follows [p] in [s], when [s] starts with [p]. *)
Fixpoint strip_prefix (p s : string) : option string :=
  match p, s with
  | EmptyString, _ => Some s
  | String a p', String b s' => if Ascii.eqb a b then strip_prefix p' s' else None
  | String _ _, EmptyString => None
  end.

(** [split_on sep s]: what stands before and after the first [sep] in [s]. *)
Fixpoint split_on (sep s : string) {struct s} : option (string * string) :=
  match strip_prefix sep s with
  | Some rest => Some (EmptyString, rest)
  | None =>
      match s with
      | EmptyString => None
      | String c s' =>
          match split_on sep s' with
          | Some (before, after) => Some (String c before, after)
          | None => None
          end
      end
  end.

(** Reads a line [if (E && Array.isArray(V)) {] back: the two names [E] and
    [V] of its condition. *)
Definition parse_guard (text : string) : option (string * string) :=
  match strip_prefix "if (" text with
  | None => None
  | Some rest =>
      match split_on " && Array.isArray(" rest with
      | None => None
      | Some (existsName, rest) =>
          match split_on ")) {" rest with
          | Some (variableName, EmptyString) => Some (existsName, variableName)
          | _ => None
          end
      end
  end.

(** The closing brace of a block opened at depth [d]. *)
Definition closes (d : nat) (l : Line) : bool :=
  (line_depth l =? d)%nat
  && match line_kind l with Statement => true | _ => false end
  && String.eqb (line_text l) "}".

(** The block of a header written at depth [d]: the deeper lines that
    follow it, up to its closing brace, and the lines after that brace. *)
Fixpoint take_block (d : nat) (ls : list Line) : option (list Line * list Line) :=
  match ls with
  | [] => None
  | l :: rest =>
      if closes d l then Some ([], rest)
      else if (d <? line_depth l)%nat
           then match take_block d rest with
                | Some (body, after) => Some (l :: body, after)
                | None => None
                end
           else None
  end.

(** Reads lines that start with a guard: the names of its condition, its
    block and what follows the block. *)
Definition read_guard (ls : list Line)
    : option (string * string * list Line * list Line) :=
  match ls with
  | [] => None
  | header :: rest =>
      match line_kind header, parse_guard (line_text header),
            take_block (line_depth header) rest with
      | Statement, Some (existsName, variableName), Some (body, after) =>
          Some (existsName, variableName, body, after)
      | _, _, _ => None
      end
  end.

(** The state of one run of the compiled procedure: the bindings in scope
    and everything else the procedure works on (reporter, outputs). *)
Record Runtime (Store : Type) : Type := {
  variables : gmap string Value;
  store : Store;
}.
Arguments variables {Store} _.
Arguments store {Store} _.

Definition ReferenceError (x : string) : Value :=
  VObject [("name", VString "ReferenceError"); ("message", VString (x +:+ " is not defined"))].

Definition TypeError (x : string) : Value :=
  VObject [("name", VString "TypeError"); ("message", VString (x +:+ " is not iterable"))].

(** A block: the bindings made inside it end with it. *)
Definition block {Store} (body : Runtime Store -> Completion (Runtime Store))
    (rt : Runtime Store) : Completion (Runtime Store) :=
  match body rt with
  | Returns rt' => Returns {| variables := variables rt; store := store rt' |}
  | Throws e => Throws e
  end.

(** Going on with the lines that follow a block, if any. *)
Definition then_lines {Store} (run_lines : list Line -> Runtime Store -> Completion (Runtime Store))
    (after : list Line) (rt : Runtime Store) : Completion (Runtime Store) :=
  match after with
  | [] => Returns rt
  | _ => run_lines after rt
  end.

(** Running lines that start with a guard, [run_lines] being what any other
    lines do (declarations, loops, rule calls: left open).  The condition
    [E && Array.isArray(V)] reads [E] first and [V] only if [E] is truthy;
    the block runs if both hold and is skipped otherwise. *)
Definition run_guard {Store} (run_lines : list Line -> Runtime Store -> Completion (Runtime Store))
    (ls : list Line) (rt : Runtime Store) : Completion (Runtime Store) :=
  match read_guard ls with
  | None => run_lines ls rt
  | Some (existsName, variableName, body, after) =>
      match variables rt !! existsName with
      | None => Throws (ReferenceError existsName)
      | Some e =>
          if truthy e
          then match variables rt !! variableName with
               | None => Throws (ReferenceError variableName)
               | Some v =>
                   if isArray v
                   then match block (run_lines body) rt with
                        | Returns rt' => then_lines run_lines after rt'
                        | Throws x => Throws x
                        end
                   else then_lines run_lines after rt
               end
          else then_lines run_lines after rt
      end
  end.

(** ** The literal step at run time *)

(** Modelled from the spec: the catalog of rules the compiled procedure
    calls by name. *)
Definition Validations : Type :=
  string -> option (Value -> Context -> Completion ErrorReporter).

(** Modelled from the spec: what the check of a field works on, the
    reporter and the destination output, a keyed container. *)
Record Destination : Type := {
  reports : ErrorReporter;
  output : gmap string Value;
}.

(** Modelled from the spec: the rule chain of a field, each rule in declared
    order against the current context; an exception inside a rule aborts the
    rest. *)
Fixpoint run_rules (validations : Validations) (rules : list CompiledRule) (value : Value)
    (pointer : string) (arrayExpressionPointer : option string) (er : ErrorReporter)
    : Completion ErrorReporter :=
  match rules with
  | [] => Returns er
  | rule :: rest =>
      match validations (name rule) with
      | None => Throws (TypeError (name rule))
      | Some validate =>
          match validate value {| errorReporter := er;
                                  pointer := pointer;
                                  arrayExpressionPointer := arrayExpressionPointer |} with
          | Returns er' => run_rules validations rest value pointer arrayExpressionPointer er'
          | Throws e => Throws e
          end
      end
  end.

(** Modelled from the spec: what the code emitted by
    [LiteralCompiler.compile] does when run ([Compiler/Nodes/Literal.ts] is
    not among the sources).  A node with neither rules nor a forced
    declaration does nothing.  If a rule tolerates an absent value, an absent
    value short-circuits past the rules.  Otherwise each rule runs in declared
    order.  On full success the value is assigned into the destination output
    at the field's location, unless the output has been disabled for this
    node. *)
Definition literal_step (validations : Validations) (l : LiteralCompiler)
    (pointer : string) (arrayExpressionPointer : option string) (key : string)
    (value : Value) (dst : Destination) : Completion Destination :=
  if bool_decide (length (literal_rules l) = 0) && negb (forceValueDeclaration l)
  then Returns dst
  else
    let checked :=
      if existsb allowUndefineds (literal_rules l) && absent value
      then Returns (reports dst)
      else run_rules validations (literal_rules l) value pointer arrayExpressionPointer
                     (reports dst) in
    match checked with
    | Throws e => Throws e
    | Returns er =>
        Returns {| reports := er;
                   output := if bool_decide (length er = length (reports dst))
                                && negb (disableOutVariable l)
                             then <[key := value]> (output dst)
                             else output dst |}
    end.

(** ** Schemas as object graphs *)

(** A schema is a graph of objects: a node refers to its element schema and
    to its children by reference, so nothing in the data itself rules out a
    cycle. *)
Inductive HeapNode : Type :=
| HeapLiteral (subtype : string) (rules : list CompiledRule)
| HeapObject (rules : list CompiledRule) (children : list (string * nat))
| HeapArray (rules : list CompiledRule) (each : option nat).

Definition heap_rules (node : HeapNode) : list CompiledRule :=
  match node with
  | HeapLiteral _ rules | HeapObject rules _ | HeapArray rules _ => rules
  end.

(** Everything a method of [ArrayCompiler] can reach: the schema objects and
    the compiler with its buffer. *)
Record World (Extra : Type) : Type := {
  schema : gmap nat HeapNode;
  compiler : CompilerState Extra;
}.
Arguments schema {Extra} _.
Arguments compiler {Extra} _.

(** How a call on the object graph ends: with a value and the world it
    leaves, without an end (the fuel ran out), or on a reference to no
    object. *)
Inductive Run (Extra A : Type) : Type :=
| Done (a : A) (w : World Extra)
| OutOfFuel
| Dangling.
Arguments Done {Extra A} a w.
Arguments OutOfFuel {Extra A}.
Arguments Dangling {Extra A}.

(** [ArrayCompiler.hasAsyncChildren] on the object graph, the world threaded
    through every step. *)
Fixpoint hasAsyncChildren_at {Extra} (fuel : nat) (ref : nat) (w : World Extra)
    : Run Extra bool :=
  match fuel with
  | 0 => OutOfFuel
  | S fuel =>
      match schema w !! ref with
      | None => Dangling
      | Some node =>
          if finds_async (heap_rules node) then Done true w
          else
            match node with
            | HeapArray _ (Some each) => hasAsyncChildren_at fuel each w
            | HeapArray _ None => Done false w
            | HeapObject _ children =>
                (fix loop (children : list (string * nat)) (w : World Extra) : Run Extra bool :=
                   match children with
                   | [] => Done false w
                   | (_, child) :: rest =>
                       match hasAsyncChildren_at fuel child w with
                       | Done true w' => Done true w'
                       | Done false w' => loop rest w'
                       | OutOfFuel => OutOfFuel
                       | Dangling => Dangling
                       end
                   end) children w
            | HeapLiteral _ _ => Done false w
            end
      end
  end.

(** The loop over the children of an object node, as [hasAsyncChildren_at]
    unfolds to it. *)
Definition any_child_async_at {Extra : Type} (fuel : nat) (children : list (string * nat))
    (w : World Extra) : Run Extra bool :=
  (fix loop (children : list (string * nat)) (w : World Extra) : Run Extra bool :=
     match children with
     | [] => Done false w
     | (_, child) :: rest =>
         match hasAsyncChildren_at fuel child w with
         | Done true w' => Done true w'
         | Done false w' => loop rest w'
         | OutOfFuel => OutOfFuel
         | Dangling => Dangling
         end
     end) children w.

(** [unfolds h ref t]: followed from [ref], the graph [h] is the finite tree
    [t]. *)
Inductive unfolds (h : gmap nat HeapNode) : nat -> SchemaNode -> Prop :=
| unfolds_literal ref subtype rules :
    h !! ref = Some (HeapLiteral subtype rules) ->
    unfolds h ref (SchemaLiteral subtype rules)
| unfolds_object ref rules refs children :
    h !! ref = Some (HeapObject rules refs) ->
    Forall2 (fun r c => r.1 = c.1 /\ unfolds h r.2 c.2) refs children ->
    unfolds h ref (SchemaObject rules children)
| unfolds_array_empty ref rules :
    h !! ref = Some (HeapArray rules None) ->
    unfolds h ref (SchemaArray rules None)
| unfolds_array_each ref rules each t :
    h !! ref = Some (HeapArray rules (Some each)) ->
    unfolds h each t ->
    unfolds h ref (SchemaArray rules (Some t)).

(** The height of a schema tree. *)
Fixpoint height (node : SchemaNode) : nat :=
  match node with
  | SchemaLiteral _ _ => 0
  | SchemaObject _ children =>
      S ((fix max_height (children : list (string * SchemaNode)) : nat :=
            match children with
            | [] => 0
            | (_, child) :: rest => Nat.max (height child) (max_height rest)
            end) children)
  | SchemaArray _ None => 0
  | SchemaArray _ (Some each) => S (height each)
  end.

(** ** Asynchronous rules below a node, in the words of the specification *)

(** Some rule anywhere below is asynchronous: a rule of the node itself, or
    of a node below its element schema, or of a node below one of its
    children. *)
Inductive async_below : SchemaNode -> Prop :=
| async_here node rule :
    In rule (node_rules node) -> async rule = true -> async_below node
| async_each rules each :
    async_below each -> async_below (SchemaArray rules (Some each))
| async_child rules children key child :
    In (key, child) children -> async_below child ->
    async_below (SchemaObject rules children).

(** ** The state in which the element schema is dispatched *)

Definition index_name (i : nat) : string := "index_" +:+ pretty i.
Definition out_name (o : nat) : string := "out_" +:+ pretty o.

(** The loop line written for the element schema [each]. *)
Definition loop_line (each : SchemaNode) (variableName : string) (d i : nat) : Line :=
  line d Statement
       ((if hasAsyncChildren each then for_of_text else for_index_text)
          variableName (index_name i)).

(** The state [s1] the literal step left, after the lines [compile] writes
    before it dispatches the element schema [each]: an empty line, the
    guard, the declaration of the accumulator, the loop line and an empty
    line; two levels deeper, and one name drawn from each counter. *)
Definition entered `{C : Collaborators} (self : ArrayCompiler) (each : SchemaNode)
    (literal : LiteralCompiler) (s1 : CompilerState Extra) : CompilerState Extra :=
  let d := indentation (buffer s1) in
  let v := variableName literal in
  {| buffer :=
       {| lines :=
            lines (buffer s1) ++
            [ line d Blank "";
              line d Statement (if_guard_text (getVariableExistsName v) v);
              line (S d) Expression
                   (out_declaration_text (out_name (outVariableCounter s1))
                      (references_outVariable (references self))
                      (pointerToExpression (field self)));
              loop_line each v (S d) (arrayIndexVariableCounter s1);
              line (S (S d)) Blank "" ];
          indentation := S (S d) |};
     arrayIndexVariableCounter := S (arrayIndexVariableCounter s1);
     outVariableCounter := S (outVariableCounter s1);
     extra := extra s1 |}.

(** The call [this.compiler.compileNode(...)] that [compile] makes from that
    state. *)
Definition dispatch_element `{C : Collaborators} (self : ArrayCompiler) (each : SchemaNode)
    (literal : LiteralCompiler) (s1 : CompilerState Extra) : Compile Extra unit :=
  compileNode {| field_name := index_name (arrayIndexVariableCounter s1);
                 field_type := FieldIdentifier |}
              each
              (references_parentPointer (references self) ++ [field self])
              (variableName literal)
              (out_name (outVariableCounter s1)).

(** The array node compiles to nothing: no rules and no element schema. *)
Definition compiles_to_nothing (self : ArrayCompiler) : Prop :=
  node_array_rules self = [] /\ node_each self = None.

(** A collaborator step keeps the indentation when it returns with the
    indentation it was called with. *)
Definition keeps_indentation `{C : Collaborators} {A : Type} (step : Compile Extra A) : Prop :=
  forall s a s', step s = Ok (a, s') -> indentation (buffer s') = indentation (buffer s).

(** A failure of [compile] that is a failure of one of its collaborators:
    of the constructor of the literal compiler, of its [compile], or of the
    dispatch of the element schema. *)
Definition collaborator_failed `{C : Collaborators} (self : ArrayCompiler)
    (st : CompilerState Extra) (reason : string) : Prop :=
  LiteralCompiler_new (field self) "array" (node_array_rules self) (references self) st
    = Fatal reason \/
  (exists l0 s0,
      LiteralCompiler_new (field self) "array" (node_array_rules self) (references self) st
        = Ok (l0, s0) /\
      LiteralCompiler_compile
        (set_flags (bool_decide (is_Some (node_each self))) true l0) s0 = Fatal reason) \/
  (exists each l0 s0 literal s1,
      node_each self = Some each /\
      LiteralCompiler_new (field self) "array" (node_array_rules self) (references self) st
        = Ok (l0, s0) /\
      LiteralCompiler_compile (set_flags true true l0) s0 = Ok (literal, s1) /\
      dispatch_element self each literal s1 (entered self each literal s1) = Fatal reason).

(** ** A worked example *)

(** The array [tags], with the rule [array] and strings as elements, one of
    whose rules is asynchronous. *)
Definition example_array_rule : CompiledRule :=
  {| allowUndefineds := false; async := false; name := "array" |}.

Definition example_unique_rule : CompiledRule :=
  {| allowUndefineds := false; async := true; name := "unique" |}.

Definition example_each : SchemaNode :=
  SchemaLiteral "string" [string_compile; example_unique_rule].

Definition example_references : References :=
  {| references_outVariable := "out";
     references_referenceVariable := "root";
     references_parentPointer := [] |}.

Definition example_self : ArrayCompiler :=
  {| field := {| field_name := "tags"; field_type := FieldLiteral |};
     node_array_rules := [example_array_rule];
     node_each := Some example_each;
     references := example_references |}.

(** The same node without rules and without an element schema. *)
Definition example_nothing : ArrayCompiler :=
  {| field := {| field_name := "tags"; field_type := FieldLiteral |};
     node_array_rules := [];
     node_each := None;
     references := example_references |}.

(** The literal compiler the sample builds for [tags], and the states
    around its [compile]. *)
Definition example_l0 : LiteralCompiler :=
  {| literal_field := {| field_name := "tags"; field_type := FieldLiteral |};
     literal_subtype := "array";
     literal_rules := [example_array_rule];
     literal_references := example_references;
     disableOutVariable := false;
     forceValueDeclaration := false;
     variableName := "val_0" |}.

Definition example_s0 : CompilerState nat :=
  {| buffer := {| lines := []; indentation := 1 |};
     arrayIndexVariableCounter := 0;
     outVariableCounter := 0;
     extra := 1 |}.

Definition example_s1 : CompilerState nat :=
  {| buffer :=
       {| lines := [ line 1 Expression "const val_0 = root['tags']";
                     line 1 Expression "const val_0_exists = exists(val_0)";
                     line 1 Expression "validations.array.validate(val_0)" ];
          indentation := 1 |};
     arrayIndexVariableCounter := 0;
     outVariableCounter := 0;
     extra := 1 |}.

(** The lines the sample writes for the elements of [tags], and the state
    after them. *)
Definition example_element : list Line :=
  [ line 3 Expression "const val_1 = val_0[index_0]";
    line 3 Expression "const val_1_exists = exists(val_1)";
    line 3 Expression "validations.string.validate(val_1)";
    line 3 Expression "await validations.unique.validate(val_1)";
    line 3 Expression "out_0[index_0] = val_1" ].

Definition example_s2 : CompilerState nat :=
  {| buffer :=
       {| lines :=
            lines (buffer (@entered (sample_with sample_compileNode) example_self example_each
                             (set_flags true true example_l0) example_s1))
            ++ example_element;
          indentation := 3 |};
     arrayIndexVariableCounter := 1;
     outVariableCounter := 1;
     extra := 2 |}.

(** The array [tags] with its rule and no element schema, and the state
    after its literal step. *)
Definition example_plain : ArrayCompiler :=
  {| field := {| field_name := "tags"; field_type := FieldLiteral |};
     node_array_rules := [example_array_rule];
     node_each := None;
     references := example_references |}.

Definition example_plain_s1 : CompilerState nat :=
  {| buffer :=
       {| lines := [ line 1 Expression "const val_0 = root['tags']";
                     line 1 Expression "const val_0_exists = exists(val_0)";
                     line 1 Expression "validations.array.validate(val_0)";
                     line 1 Expression "out['tags'] = val_0" ];
          indentation := 1 |};
     arrayIndexVariableCounter := 0;
     outVariableCounter := 0;
     extra := 1 |}.

(** A schema of two objects, the array [tags] and its element schema, and a
    schema whose array is its own element schema. *)
Definition example_world : World nat :=
  {| schema := <[0 := HeapArray [example_array_rule] (Some 1)]>
               (<[1 := HeapLiteral "string" [string_compile; example_unique_rule]]> ∅);
     compiler := initial_state 0 |}.

Definition example_cyclic_world : World nat :=
  {| schema := <[0 := HeapArray [example_array_rule] (Some 0)]> ∅;
     compiler := initial_state 0 |}.

(** ** Further vocabulary *)

(** Every rule of a schema tree: the rules of the node, then those of its
    element schema or of its children. *)
Fixpoint rules_below (node : SchemaNode) : list CompiledRule :=
  node_rules node ++
  match node with
  | SchemaArray _ (Some each) => rules_below each
  | SchemaArray _ None => []
  | SchemaObject _ children => flat_map (fun kc => rules_below kc.2) children
  | SchemaLiteral _ _ => []
  end.

(** [below inner outer]: [inner] is [outer] or a node under it. *)
Inductive below (inner : SchemaNode) : SchemaNode -> Prop :=
| below_here : below inner inner
| below_each rules each :
    below inner each -> below inner (SchemaArray rules (Some each))
| below_child rules children key child :
    In (key, child) children -> below inner child ->
    below inner (SchemaObject rules children).

(** [reachable h ref ref']: in the schema graph [h], the object [ref'] is
    [ref] or is reached from it through element schemas and children. *)
Inductive reachable (h : gmap nat HeapNode) : nat -> nat -> Prop :=
| reachable_here ref : reachable h ref ref
| reachable_each ref rules each ref' :
    h !! ref = Some (HeapArray rules (Some each)) ->
    reachable h each ref' -> reachable h ref ref'
| reachable_child ref rules children key child ref' :
    h !! ref = Some (HeapObject rules children) ->
    In (key, child) children ->
    reachable h child ref' -> reachable h ref ref'.

(** Some object reachable from [ref] has an asynchronous rule. *)
Definition async_reachable (h : gmap nat HeapNode) (ref : nat) : Prop :=
  exists ref' node rule,
    reachable h ref ref' /\ h !! ref' = Some node /\
    In rule (heap_rules node) /\ async rule = true.

(** [extends s s']: [s'] has the lines of [s], in order, before any others,
    and neither counter is lower than in [s]. *)
Definition extends {Extra : Type} (s s' : CompilerState Extra) : Prop :=
  (exists added, lines (buffer s') = lines (buffer s) ++ added) /\
  arrayIndexVariableCounter s <= arrayIndexVariableCounter s' /\
  outVariableCounter s <= outVariableCounter s'.

(** A collaborator step only extends the state it is called with. *)
Definition only_extends `{C : Collaborators} {A : Type} (step : Compile Extra A) : Prop :=
  forall s a s', step s = Ok (a, s') -> extends s s'.

(** The array [tags] with objects as elements, compiled from the [object]
    and [string] rules only. *)
Definition example_sync_each : SchemaNode :=
  SchemaObject [object_compile] [("name", SchemaLiteral "string" [string_compile])].

Definition example_sync_self : ArrayCompiler :=
  {| field := {| field_name := "tags"; field_type := FieldLiteral |};
     node_array_rules := [example_array_rule];
     node_each := Some example_sync_each;
     references := example_references |}.

(** A schema whose array is its own element schema and has an asynchronous
    rule of its own. *)
Definition example_cyclic_async_world : World nat :=
  {| schema := <[0 := HeapArray [example_unique_rule] (Some 0)]> ∅;
     compiler := initial_state 0 |}.

(** The state in which the sample leaves the compile pass of [tags]. *)
Definition example_final : CompilerState nat :=
  {| buffer :=
       {| lines := lines (buffer example_s2)
                   ++ [line 2 Statement "}"; line 1 Statement "}"];
          indentation := 1 |};
     arrayIndexVariableCounter := 1;
     outVariableCounter := 1;
     extra := 2 |}.

(** The guard that the sample writes for [tags], with its block. *)
Definition example_guarded : list Line :=
  [ line 1 Statement "if (val_0_exists && Array.isArray(val_0)) {";
    line 2 Expression "const out_0 = out['tags'] = []";
    line 2 Statement "for (let [index_0] of val_0.entries()) {";
    line 3 Blank "" ]
  ++ example_element
  ++ [ line 2 Statement "}"; line 1 Statement "}" ].

(** A run in which [tags] holds a string, after the container-level chain
    has reported it. *)
Definition example_not_array : Runtime ErrorReporter :=
  {| variables := <["val_0_exists" := VBoolean true]> (<["val_0" := VString "not-an-array"]> ∅);
     store := report "tags" "array" "array validation failed" None [] |}.

(** Lines that raise as soon as they are run. *)
Definition example_raising_lines (ls : list Line) (rt : Runtime ErrorReporter)
    : Completion (Runtime ErrorReporter) :=
  Throws (VString "ran").

(** ** Proof automation *)

(** Unfolds the steps of the compile pass down to the state they build. *)
Ltac unfold_compile :=
  cbv [mbind mret Compile_bind Compile_ret
       startIfGuard endIfGuard startAsyncForLoop startForLoop endForLoop
       declareOutVariable next_arrayIndexVariableCounter next_outVariableCounter
       writeStatement writeExpression newLine indent with_buffer write line];
  cbn [buffer lines indentation arrayIndexVariableCounter outVariableCounter extra].

(** * Properties *)

(** ** The rules *)

Lemma report_extends pointer rule message aep (er : ErrorReporter) :
  report pointer rule message aep er <> er.
Proof.
  unfold report. intros H.
  apply (f_equal length) in H. rewrite length_app in H. simpl in H. lia.
Qed.

Lemma object_rejects_iff (value : Value) :
  object_rejects value = true <->
  typeof value <> "object" \/ isArray value = true \/ value = VNull.
Proof.
  unfold object_rejects.
  destruct value; cbn; split; intros H; try reflexivity; try discriminate;
    try (left; discriminate); try (right; left; reflexivity);
    try (right; right; reflexivity);
    destruct H as [H | [H | H]]; congruence.
Qed.

Lemma string_rejects_iff (value : Value) :
  string_rejects value = true <-> typeof value <> "string".
Proof.
  unfold string_rejects.
  destruct value; cbn; split; intros H; try reflexivity; try discriminate; congruence.
Qed.

(** C4.  For every value, the [object] rule's [validate] reports exactly one
    violation (rule name ['object'], the current pointer, the default
    message, the array expression pointer) if and only if [typeof value] is
    not ['object'], or the value is an array, or the value is [null]; for
    every other value the reporter is left as it was. *)
Theorem object_validate_reports_iff_not_plain (value : Value) (ctx : Context) :
  let violation :=
    {| report_pointer := pointer ctx;
       report_rule := "object";
       report_message := "object validation failed";
       report_arrayExpressionPointer := arrayExpressionPointer ctx |} in
  let not_plain := typeof value <> "object" \/ isArray value = true \/ value = VNull in
  exists er : ErrorReporter,
    object_validate value ctx = Returns er /\
    (er = errorReporter ctx ++ [violation] <-> not_plain) /\
    (er = errorReporter ctx <-> ~ not_plain).
Proof.
  intros violation not_plain. unfold object_validate.
  pose proof (object_rejects_iff value) as Hiff.
  pose proof (report_extends (pointer ctx) "object" object_DEFAULT_MESSAGE
                (arrayExpressionPointer ctx) (errorReporter ctx)) as Hne.
  destruct (object_rejects value) eqn:E.
  - assert (Hnp : not_plain) by (apply Hiff; reflexivity).
    eexists. split; [reflexivity |]. split; split; intros H.
    + exact Hnp.
    + reflexivity.
    + exfalso. apply Hne. exact H.
    + contradiction.
  - assert (Hp : ~ not_plain) by (intros H; apply Hiff in H; discriminate).
    eexists. split; [reflexivity |]. split; split; intros H.
    + exfalso. apply Hne. symmetry. exact H.
    + contradiction.
    + exact Hp.
    + reflexivity.
Qed.

(** On the reporter that collects, the [string] rule's [validate] returns;
    the reporter it leaves has exactly one more report, with rule name
    ['string'], if and only if [typeof value] is not ['string'], and is
    unchanged otherwise. *)
Lemma string_validate_returns_and_reports (value : Value) (ctx : Context) :
  let violation :=
    {| report_pointer := pointer ctx;
       report_rule := "string";
       report_message := "string validation failed";
       report_arrayExpressionPointer := arrayExpressionPointer ctx |} in
  exists er : ErrorReporter,
    string_validate value ctx = Returns er /\
    (er = errorReporter ctx ++ [violation] <-> typeof value <> "string") /\
    (er = errorReporter ctx <-> typeof value = "string").
Proof.
  intros violation. unfold string_validate.
  pose proof (string_rejects_iff value) as Hiff.
  pose proof (report_extends (pointer ctx) "string" string_DEFAULT_MESSAGE
                (arrayExpressionPointer ctx) (errorReporter ctx)) as Hne.
  destruct (string_rejects value) eqn:E.
  - assert (Hns : typeof value <> "string") by (apply Hiff; reflexivity).
    eexists. split; [reflexivity |]. split; split; intros H.
    + exact Hns.
    + reflexivity.
    + exfalso. apply Hne. exact H.
    + contradiction.
  - assert (Hs : typeof value = "string").
    { destruct (String.eqb_spec (typeof value) "string") as [Heq | Hneq]; [exact Heq |].
      apply Hiff in Hneq. discriminate. }
    eexists. split; [reflexivity |]. split; split; intros H.
    + exfalso. apply Hne. symmetry. exact H.
    + contradiction.
    + exact Hs.
    + reflexivity.
Qed.

(** C5, amended.  Whatever reporter it is handed, the [string] rule's
    [validate] raises nothing of its own.  If [typeof value] is ['string']
    it returns normally without a call to the reporter.  If it is not, it
    makes one call [report(pointer, 'string', 'string validation failed',
    arrayExpressionPointer)] and ends as that call ends: it returns normally
    exactly when the reporter does.  On the reporter that collects, it
    returns normally for every value, with exactly one more report, of rule
    name ['string'], if and only if [typeof value] is not ['string'], and
    with the reports unchanged otherwise. *)
Theorem string_validate_reports_through_the_reporter
    {R : Type} (reporter : Reporter R) (value : Value) (p : string)
    (aep : option string) (state : R) :
  (typeof value = "string" ->
     string_validate_on reporter value p aep state = Returns state) /\
  (typeof value <> "string" ->
     string_validate_on reporter value p aep state =
       reporter_report reporter p "string" "string validation failed" aep state) /\
  (forall state', string_validate_on reporter value p aep state = Returns state' ->
     typeof value = "string" /\ state' = state \/
     typeof value <> "string" /\
       reporter_report reporter p "string" "string validation failed" aep state
         = Returns state') /\
  (forall er : ErrorReporter,
     let violation :=
       {| report_pointer := p;
          report_rule := "string";
          report_message := "string validation failed";
          report_arrayExpressionPointer := aep |} in
     exists er' : ErrorReporter,
       string_validate_on collecting value p aep er = Returns er' /\
       (er' = er ++ [violation] <-> typeof value <> "string") /\
       (er' = er <-> typeof value = "string")) /\
  (forall ctx : Context,
     string_validate value ctx =
       string_validate_on collecting value (pointer ctx) (arrayExpressionPointer ctx)
                          (errorReporter ctx)).
Proof.
  pose proof (string_rejects_iff value) as Hiff.
  assert (Hdec : string_rejects value = false -> typeof value = "string").
  { intros E. destruct (String.eqb_spec (typeof value) "string") as [Heq | Hneq];
      [exact Heq |]. apply Hiff in Hneq. congruence. }
  unfold string_validate_on, string_validate.
  split; [| split; [| split; [| split]]].
  - intros Hs. destruct (string_rejects value) eqn:E; [| reflexivity].
    exfalso. apply (proj1 Hiff eq_refl). exact Hs.
  - intros Hns. apply Hiff in Hns. rewrite Hns. reflexivity.
  - intros state' H. destruct (string_rejects value) eqn:E.
    + right. split; [apply Hiff; reflexivity | exact H].
    + left. split; [apply Hdec; reflexivity |]. congruence.
  - intros er.
    pose proof (report_extends p "string" string_DEFAULT_MESSAGE aep er) as Hne.
    destruct (string_rejects value) eqn:E.
    + assert (Hns : typeof value <> "string") by (apply Hiff; reflexivity).
      eexists. split; [reflexivity |]. split; split; intros H.
      * exact Hns.
      * reflexivity.
      * exfalso. apply Hne. exact H.
      * contradiction.
    + assert (Hs : typeof value = "string") by (apply Hdec; reflexivity).
      eexists. split; [reflexivity |]. split; split; intros H.
      * exfalso. apply Hne. symmetry. exact H.
      * contradiction.
      * exact Hs.
      * reflexivity.
  - intros ctx. destruct (string_rejects value); reflexivity.
Qed.

(** C5 as stated fails on a reporter whose [report] raises, as one that
    stops at the first violation does: [validate] has no [try] around the
    call, so on a number the exception of the reporter unwinds it, and it
    does not return. *)
Lemma string_validate_unwinds_when_the_reporter_raises :
  typeof (VNumber 1) <> "string" /\
  string_validate_on bailing (VNumber 1) "age" None [] =
    Throws (VObject [("name", VString "ValidationException");
                     ("message", VString "string validation failed")]) /\
  ~ exists er : ErrorReporter,
      string_validate_on bailing (VNumber 1) "age" None [] = Returns er.
Proof.
  split; [discriminate |]. split; [reflexivity |].
  intros [er H]. discriminate H.
Qed.

(** C10.  The [object] rule reports a violation for every value whose
    [typeof] is not ['object']; [undefined] is such a value, and so is a
    function, whatever keyed properties it carries. *)
Theorem object_validate_rejects_non_object_typeof (value : Value) (ctx : Context)
    (Htypeof : typeof value <> "object") :
  let violation :=
    {| report_pointer := pointer ctx;
       report_rule := "object";
       report_message := "object validation failed";
       report_arrayExpressionPointer := arrayExpressionPointer ctx |} in
  object_validate value ctx = Returns (errorReporter ctx ++ [violation]) /\
  object_validate VUndefined ctx = Returns (errorReporter ctx ++ [violation]) /\
  (forall props, object_validate (VFunction props) ctx
                 = Returns (errorReporter ctx ++ [violation])).
Proof.
  intros violation. split; [| split; [reflexivity | intros props; reflexivity]].
  unfold object_validate.
  assert (H : object_rejects value = true) by (apply object_rejects_iff; left; exact Htypeof).
  rewrite H. reflexivity.
Qed.

Lemma object_validate_rejects_function_with_properties :
  typeof (VFunction [("a", VNumber 1)]) <> "object" /\
  object_validate (VFunction [("a", VNumber 1)])
    {| errorReporter := []; pointer := "profile"; arrayExpressionPointer := None |}
  = Returns [ {| report_pointer := "profile";
                 report_rule := "object";
                 report_message := "object validation failed";
                 report_arrayExpressionPointer := None |} ].
Proof.
  split; [discriminate |].
  apply (object_validate_rejects_non_object_typeof
           (VFunction [("a", VNumber 1)])
           {| errorReporter := []; pointer := "profile"; arrayExpressionPointer := None |}).
  discriminate.
Defined.

(** ** [hasAsyncChildren] *)

(** Induction on schema trees, with the hypothesis for every child of an
    object. *)
Lemma SchemaNode_tree_ind (P : SchemaNode -> Prop)
    (Hliteral : forall subtype rules, P (SchemaLiteral subtype rules))
    (Hobject : forall rules children,
        Forall (fun kc => P kc.2) children -> P (SchemaObject rules children))
    (Hempty : forall rules, P (SchemaArray rules None))
    (Heach : forall rules each, P each -> P (SchemaArray rules (Some each))) :
  forall node, P node.
Proof.
  fix IH 1. intros [subtype rules | rules children | rules [each |]].
  - apply Hliteral.
  - apply Hobject. induction children as [| [key child] rest IHrest].
    + constructor.
    + constructor; [apply IH | exact IHrest].
  - apply Heach. apply IH.
  - apply Hempty.
Qed.

Lemma finds_async_true_iff (rules : list CompiledRule) :
  finds_async rules = true <-> exists rule, In rule rules /\ async rule = true.
Proof.
  unfold finds_async. destruct (List.find _ rules) as [rule |] eqn:E.
  - apply find_some in E. split; [intros _; exists rule; exact E | reflexivity].
  - split; [discriminate |]. intros [rule [Hin Hasync]].
    pose proof (find_none _ _ E rule Hin) as Hnone. simpl in Hnone. congruence.
Qed.

Lemma any_child_async_true_iff (children : list (string * SchemaNode)) :
  any_child_async children = true <->
  exists key child, In (key, child) children /\ hasAsyncChildren child = true.
Proof.
  induction children as [| [key child] rest IH]; simpl.
  - split; [discriminate | intros (? & ? & [] & _)].
  - destruct (hasAsyncChildren child) eqn:E.
    + split; [intros _ | reflexivity]. exists key, child. split; [left; reflexivity | exact E].
    + rewrite IH. split.
      * intros (k & c & Hin & Hc). exists k, c. split; [right; exact Hin | exact Hc].
      * intros (k & c & [Heq | Hin] & Hc).
        -- inversion Heq; subst. congruence.
        -- exists k, c. split; assumption.
Qed.

Lemma hasAsyncChildren_unfold (node : SchemaNode) :
  hasAsyncChildren node =
  if finds_async (node_rules node) then true
  else match node with
       | SchemaArray _ (Some each) => hasAsyncChildren each
       | SchemaArray _ None => false
       | SchemaObject _ children => any_child_async children
       | SchemaLiteral _ _ => false
       end.
Proof. destruct node as [? ? | ? ? | ? [? |]]; reflexivity. Qed.

(** [hasAsyncChildren] answers [true] exactly when some rule anywhere below
    the node is asynchronous. *)
Lemma hasAsyncChildren_true_iff (node : SchemaNode) :
  hasAsyncChildren node = true <-> async_below node.
Proof.
  induction node as [subtype rules | rules children IH | rules | rules each IH]
    using SchemaNode_tree_ind;
    rewrite hasAsyncChildren_unfold; simpl node_rules;
    destruct (finds_async rules) eqn:E.
  all: try (split; [intros _ | reflexivity];
            apply finds_async_true_iff in E; destruct E as (rule & Hin & Hasync);
            eapply async_here; [exact Hin | exact Hasync]).
  all: assert (Hrules : forall rule, In rule rules -> async rule = true -> False)
         by (intros rule Hin Hasync;
             assert (finds_async rules = true) by (apply finds_async_true_iff; eauto);
             congruence).
  - split; [discriminate |]. intros H. inversion H; subst.
    exfalso. simpl in *. eapply Hrules; eassumption.
  - rewrite any_child_async_true_iff. split.
    + intros (key & child & Hin & Hc). eapply async_child; [exact Hin |].
      rewrite List.Forall_forall in IH. apply (IH (key, child) Hin). exact Hc.
    + intros H. inversion H; subst.
      * exfalso. simpl in *. eapply Hrules; eassumption.
      * exists key, child. split; [assumption |].
        rewrite List.Forall_forall in IH. apply (IH (key, child)); assumption.
  - split; [discriminate |]. intros H. inversion H; subst.
    exfalso. simpl in *. eapply Hrules; eassumption.
  - rewrite IH. split.
    + intros H. apply async_each. exact H.
    + intros H. inversion H; subst; [| assumption].
      exfalso. simpl in *. eapply Hrules; eassumption.
Qed.

(** ** [ArrayCompiler.compile] *)

Section Compile_properties.
Context `{C : Collaborators}.

Lemma compile_nothing (self : ArrayCompiler) (st : CompilerState Extra) :
  compiles_to_nothing self -> compile self st = Ok (tt, st).
Proof.
  intros [Hrules Heach]. unfold compile. rewrite Hrules, Heach. reflexivity.
Qed.

Lemma compile_guard_false (self : ArrayCompiler) :
  ~ compiles_to_nothing self ->
  bool_decide (length (node_array_rules self) = 0)
    && negb (bool_decide (is_Some (node_each self))) = false.
Proof.
  intros Hnot. unfold compiles_to_nothing in Hnot.
  destruct (node_array_rules self) as [| r rules]; [| reflexivity].
  destruct (node_each self) as [each |]; [reflexivity |].
  exfalso. apply Hnot. split; reflexivity.
Qed.

(** Without an element schema, [compile] is the literal step. *)
Lemma compile_without_each (self : ArrayCompiler) (st s0 s1 : CompilerState Extra)
    (l0 literal : LiteralCompiler) :
  ~ compiles_to_nothing self ->
  node_each self = None ->
  LiteralCompiler_new (field self) "array" (node_array_rules self) (references self) st
    = Ok (l0, s0) ->
  LiteralCompiler_compile (set_flags false true l0) s0 = Ok (literal, s1) ->
  compile self st = Ok (tt, s1).
Proof.
  intros Hnot Heach Hnew Hcompile. unfold compile.
  rewrite (compile_guard_false self Hnot).
  unfold mbind, Compile_bind. rewrite Hnew. rewrite Heach. simpl.
  rewrite Hcompile. reflexivity.
Qed.

(** With an element schema, [compile] is the literal step, then the element
    schema dispatched from the [entered] state, then the two closing
    braces. *)
Lemma compile_with_each (self : ArrayCompiler) (each : SchemaNode)
    (st s0 s1 : CompilerState Extra) (l0 literal : LiteralCompiler) :
  node_each self = Some each ->
  LiteralCompiler_new (field self) "array" (node_array_rules self) (references self) st
    = Ok (l0, s0) ->
  LiteralCompiler_compile (set_flags true true l0) s0 = Ok (literal, s1) ->
  compile self st =
  (dispatch_element self each literal s1;; endForLoop;; endIfGuard)
    (entered self each literal s1).
Proof.
  intros Heach Hnew Hcompile. unfold compile. rewrite Heach. simpl.
  rewrite andb_false_r.
  unfold mbind, Compile_bind at 1. rewrite Hnew.
  unfold Compile_bind at 1. rewrite Hcompile.
  unfold entered, dispatch_element, loop_line, index_name, out_name.
  destruct (hasAsyncChildren each); unfold_compile;
    rewrite <- !app_assoc; reflexivity.
Qed.

End Compile_properties.

Lemma for_of_is_not_for_index (v v' : string) (i i' : nat) :
  for_of_text v (index_name i) <> for_index_text v' (index_name i').
Proof. unfold for_of_text, for_index_text, index_name. simpl. discriminate. Qed.

Lemma index_name_inj (i j : nat) : index_name i = index_name j -> i = j.
Proof.
  unfold index_name. simpl. intros H. injection H as H.
  exact (pretty_nat_inj _ _ H).
Qed.

Lemma out_name_inj (i j : nat) : out_name i = out_name j -> i = j.
Proof.
  unfold out_name. simpl. intros H. injection H as H.
  exact (pretty_nat_inj _ _ H).
Qed.

Section Array_claims.
Context `{C : Collaborators}.

(** C7.  An array node whose rule list is empty and which has no element
    schema compiles to nothing: [compile] returns with the buffer and the
    compiler state, counters included, exactly as they were. *)
Theorem compile_without_rules_and_each_changes_nothing
    (self : ArrayCompiler) (st : CompilerState Extra)
    (Hrules : node_array_rules self = []) (Heach : node_each self = None) :
  compile self st = Ok (tt, st).
Proof. apply compile_nothing. split; assumption. Qed.

(** C1.  For an array node with an element schema [each], once the literal
    step has returned, [compile] writes one loop line before it dispatches
    the element schema, and goes on with nothing but that dispatch and the
    two closing braces.  The loop line is
    [for (let [index] of v.entries()) {] if and only if some rule anywhere
    below [each] is asynchronous, and
    [for (let index = 0; index < v.length; index++) {] if and only if none
    is; the form is part of the written text. *)
Theorem compile_selects_loop_form_once
    (self : ArrayCompiler) (each : SchemaNode) (st s0 s1 : CompilerState Extra)
    (l0 literal : LiteralCompiler)
    (Heach : node_each self = Some each)
    (Hnew : LiteralCompiler_new (field self) "array" (node_array_rules self)
              (references self) st = Ok (l0, s0))
    (Hliteral : LiteralCompiler_compile (set_flags true true l0) s0 = Ok (literal, s1)) :
  let d := indentation (buffer s1) in
  let v := variableName literal in
  let index := index_name (arrayIndexVariableCounter s1) in
  compile self st =
    (dispatch_element self each literal s1;; endForLoop;; endIfGuard)
      (entered self each literal s1) /\
  (exists guard declaration loop,
      lines (buffer (entered self each literal s1)) =
        lines (buffer s1) ++
        [line d Blank ""; guard; declaration; loop; line (S (S d)) Blank ""] /\
      (loop = line (S d) Statement
                ("for (let [" +:+ index +:+ "] of " +:+ v +:+ ".entries()) {")
       <-> async_below each) /\
      (loop = line (S d) Statement
                ("for (let " +:+ index +:+ " = 0; " +:+ index +:+ " < "
                   +:+ v +:+ ".length; " +:+ index +:+ "++) {")
       <-> ~ async_below each)).
Proof.
  intros d v index. split; [apply (compile_with_each self each st s0 s1 l0); assumption |].
  do 2 eexists. exists (loop_line each v (S d) (arrayIndexVariableCounter s1)).
  split; [reflexivity |].
  unfold loop_line. rewrite <- hasAsyncChildren_true_iff.
  pose proof (for_of_is_not_for_index v v (arrayIndexVariableCounter s1)
                (arrayIndexVariableCounter s1)) as Hne.
  fold index in Hne |- *. unfold for_of_text, for_index_text in Hne |- *.
  destruct (hasAsyncChildren each); split; split; intros H;
    try reflexivity; try discriminate; try congruence.
Qed.

(** C6.  For an array node with an element schema, once the literal step has
    returned in state [s1], [compile] draws the index variable from
    [arrayIndexVariableCounter] and the output accumulator from
    [outVariableCounter], incrementing each, so that a later draw gives
    another name; inside the guard and before the loop line it writes
    [const out_o = parent[reference] = []] for this field's reference
    expression; it then dispatches the element schema with the index
    variable as an identifier field, the extended pointer, the value
    variable and the accumulator. *)
Theorem compile_declares_fresh_index_and_accumulator
    (self : ArrayCompiler) (each : SchemaNode) (st s0 s1 : CompilerState Extra)
    (l0 literal : LiteralCompiler)
    (Heach : node_each self = Some each)
    (Hnew : LiteralCompiler_new (field self) "array" (node_array_rules self)
              (references self) st = Ok (l0, s0))
    (Hliteral : LiteralCompiler_compile (set_flags true true l0) s0 = Ok (literal, s1)) :
  let d := indentation (buffer s1) in
  let v := variableName literal in
  let i := arrayIndexVariableCounter s1 in
  let o := outVariableCounter s1 in
  let s := entered self each literal s1 in
  compile self st = (dispatch_element self each literal s1;; endForLoop;; endIfGuard) s /\
  dispatch_element self each literal s1 =
    compileNode {| field_name := "index_" +:+ pretty i; field_type := FieldIdentifier |}
                each
                (references_parentPointer (references self) ++ [field self])
                v
                ("out_" +:+ pretty o) /\
  lines (buffer s) =
    lines (buffer s1) ++
    [ line d Blank "";
      line d Statement (if_guard_text (getVariableExistsName v) v);
      line (S d) Expression
           ("const " +:+ "out_" +:+ pretty o +:+ " = "
              +:+ references_outVariable (references self)
              +:+ "[" +:+ pointerToExpression (field self) +:+ "] = []");
      loop_line each v (S d) i;
      line (S (S d)) Blank "" ] /\
  indentation (buffer s) = S (S d) /\
  arrayIndexVariableCounter s = S i /\
  outVariableCounter s = S o /\
  extra s = extra s1 /\
  (forall j, i < j -> index_name j <> "index_" +:+ pretty i) /\
  (forall j, o < j -> out_name j <> "out_" +:+ pretty o).
Proof.
  intros d v i o s.
  split; [apply (compile_with_each self each st s0 s1 l0); assumption |].
  split; [reflexivity |]. split; [reflexivity |].
  split; [reflexivity |]. split; [reflexivity |]. split; [reflexivity |].
  split; [reflexivity |]. split.
  - intros j Hj Heq. apply index_name_inj in Heq. lia.
  - intros j Hj Heq. apply out_name_inj in Heq. lia.
Qed.

End Array_claims.

(** ** Indentation *)

Section Indentation.
Context `{C : Collaborators}.

Lemma compile_indentation (self : ArrayCompiler) (st : CompilerState Extra) :
  (forall f subtype rules refs, keeps_indentation (LiteralCompiler_new f subtype rules refs)) ->
  (forall l, keeps_indentation (LiteralCompiler_compile l)) ->
  (forall each, node_each self = Some each ->
     forall f parents referenceVariable outVariable,
       keeps_indentation (compileNode f each parents referenceVariable outVariable)) ->
  match compile self st with
  | Ok (_, st') => indentation (buffer st') = indentation (buffer st)
  | Fatal reason => collaborator_failed self st reason
  end.
Proof.
  intros new_keeps literal_keeps compileNode_keeps.
  destruct (decide (compiles_to_nothing self)) as [Hnothing | Hsome].
  { rewrite (compile_nothing self st Hnothing). reflexivity. }
  destruct (LiteralCompiler_new (field self) "array" (node_array_rules self)
              (references self) st) as [[l0 s0] | reason] eqn:Hnew.
  2: { unfold compile. rewrite (compile_guard_false self Hsome).
       unfold mbind, Compile_bind at 1. rewrite Hnew. left. exact Hnew. }
  destruct (LiteralCompiler_compile
              (set_flags (bool_decide (is_Some (node_each self))) true l0) s0)
    as [[literal s1] | reason] eqn:Hliteral.
  2: { unfold compile. rewrite (compile_guard_false self Hsome).
       unfold mbind, Compile_bind at 1. rewrite Hnew.
       unfold Compile_bind at 1. rewrite Hliteral.
       right. left. exists l0, s0. split; [exact Hnew | exact Hliteral]. }
  pose proof (new_keeps _ _ _ _ _ _ _ Hnew) as E0.
  pose proof (literal_keeps _ _ _ _ Hliteral) as E1.
  destruct (node_each self) as [each |] eqn:Heach.
  - simpl in Hliteral.
    rewrite (compile_with_each self each st s0 s1 l0 literal Heach Hnew Hliteral).
    unfold mbind, Compile_bind at 1.
    destruct (dispatch_element self each literal s1 (entered self each literal s1))
      as [[[] s2] | reason] eqn:Hnode.
    + apply (compileNode_keeps each eq_refl) in Hnode.
      unfold_compile. unfold dedent. cbn in Hnode |- *. rewrite Hnode. cbn. congruence.
    + right. right. exists each, l0, s0, literal, s1. repeat split; assumption.
  - simpl in Hliteral.
    rewrite (compile_without_each self st s0 s1 l0 literal Hsome Heach Hnew Hliteral).
    congruence.
Qed.

(** C8.  Assuming the literal compiler and the dispatched element
    compilation return with the indentation they were called with, so does
    [compile], for every array node: each indent of the guard and of the loop
    is undone by the dedent of its closing brace.  [compile] itself never
    fails on a dedent: if it fails, a collaborator failed. *)
Theorem compile_restores_indentation
    (Hnew : forall f subtype rules refs,
        keeps_indentation (LiteralCompiler_new f subtype rules refs))
    (Hliteral : forall l, keeps_indentation (LiteralCompiler_compile l))
    (Hnode : forall f node parents referenceVariable outVariable,
        keeps_indentation (compileNode f node parents referenceVariable outVariable))
    (self : ArrayCompiler) (st : CompilerState Extra) :
  match compile self st with
  | Ok (_, st') => indentation (buffer st') = indentation (buffer st)
  | Fatal reason => collaborator_failed self st reason
  end.
Proof.
  apply compile_indentation; [exact Hnew | exact Hliteral |].
  intros each _ f parents referenceVariable outVariable. apply Hnode.
Qed.

End Indentation.

(** The sample orchestrator keeps the indentation. *)
Lemma sample_new_keeps_indentation f subtype rules refs :
  @keeps_indentation sample _ (sample_LiteralCompiler_new f subtype rules refs).
Proof. intros s a s' H. injection H as <- <-. reflexivity. Qed.

Lemma sample_write_rules_keeps_indentation variableName rules :
  @keeps_indentation sample _ (sample_write_rules variableName rules).
Proof.
  induction rules as [| rule rest IH]; intros s a s' H.
  - injection H as <- <-. reflexivity.
  - simpl in H. apply IH in H. exact H.
Qed.

Lemma sample_literal_keeps_indentation l :
  @keeps_indentation sample _ (sample_LiteralCompiler_compile l).
Proof.
  intros s a s' H. unfold sample_LiteralCompiler_compile in H.
  destruct (bool_decide (length (literal_rules l) = 0) && negb (forceValueDeclaration l)).
  { injection H as <- <-. reflexivity. }
  unfold mbind, Compile_bind in H. cbn in H.
  destruct (sample_write_rules (variableName l) (literal_rules l) _)
    as [[[] s2] |] eqn:Hrules; [| discriminate].
  apply sample_write_rules_keeps_indentation in Hrules. cbn in Hrules.
  destruct (disableOutVariable l); cbn in H; injection H as <- <-; cbn; exact Hrules.
Qed.

Lemma sample_compileNode_keeps_indentation node :
  forall f parents referenceVariable outVariable,
    @keeps_indentation sample _ (sample_compileNode f node parents referenceVariable outVariable).
Proof.
  induction node as [subtype rules | rules children _ | rules | rules each IH]
    using SchemaNode_tree_ind; intros f parents referenceVariable outVariable s a s' H.
  - simpl in H. unfold mbind, Compile_bind in H. cbn in H.
    destruct (sample_LiteralCompiler_compile _ _) as [[l s2] |] eqn:Hl; [| discriminate].
    apply sample_literal_keeps_indentation in Hl. injection H as <- <-. exact Hl.
  - simpl in H. unfold mbind, Compile_bind in H. cbn in H.
    destruct (sample_LiteralCompiler_compile _ _) as [[l s2] |] eqn:Hl; [| discriminate].
    apply sample_literal_keeps_indentation in Hl. injection H as <- <-. exact Hl.
  - change (sample_compileNode f (SchemaArray rules None) parents referenceVariable outVariable)
      with (@compile sample
              {| field := f; node_array_rules := rules; node_each := None;
                 references := {| references_outVariable := outVariable;
                                  references_referenceVariable := referenceVariable;
                                  references_parentPointer := parents |} |}) in H.
    match type of H with
    | compile ?self _ = _ =>
        pose proof (@compile_indentation sample self s
                      sample_new_keeps_indentation sample_literal_keeps_indentation) as Hkeep
    end.
    rewrite H in Hkeep. apply Hkeep. intros each Heach. discriminate.
  - change (sample_compileNode f (SchemaArray rules (Some each)) parents referenceVariable
              outVariable)
      with (@compile sample
              {| field := f; node_array_rules := rules; node_each := Some each;
                 references := {| references_outVariable := outVariable;
                                  references_referenceVariable := referenceVariable;
                                  references_parentPointer := parents |} |}) in H.
    match type of H with
    | compile ?self _ = _ =>
        pose proof (@compile_indentation sample self s
                      sample_new_keeps_indentation sample_literal_keeps_indentation) as Hkeep
    end.
    rewrite H in Hkeep. apply Hkeep. intros each' Heach. injection Heach as <-. exact IH.
Qed.

(** ** The guard around the element block *)

Lemma absent_is_not_array (value : Value) : absent value = true -> isArray value = false.
Proof. destruct value; simpl; congruence. Qed.

Lemma strip_prefix_app (p s : string) : strip_prefix p (p +:+ s) = Some s.
Proof.
  induction p as [| c p IH]; simpl; [destruct s; reflexivity |].
  rewrite Ascii.eqb_refl. exact IH.
Qed.

(** A separator that starts with a character no identifier has is first met
    right after a word. *)
Lemma split_on_word (c : Ascii.ascii) (sep e rest : string) :
  identifier_char c = false ->
  is_word e = true ->
  split_on (String c sep) (e +:+ String c sep +:+ rest) = Some (e, rest).
Proof.
  intros Hc. induction e as [| a e IH]; intros He.
  - change (EmptyString +:+ String c sep +:+ rest) with (String c (sep +:+ rest)).
    cbn [split_on strip_prefix]. rewrite Ascii.eqb_refl, strip_prefix_app. reflexivity.
  - simpl in He. apply andb_prop in He. destruct He as [Ha He].
    change (String a e +:+ String c sep +:+ rest)
      with (String a (e +:+ String c sep +:+ rest)).
    cbn [split_on strip_prefix].
    destruct (Ascii.eqb_spec c a) as [-> | _]; [congruence |].
    rewrite (IH He). reflexivity.
Qed.

(** The guard line reads back to the two names it was written from. *)
Lemma parse_guard_text (existsName variableName : string) :
  is_word existsName = true ->
  is_word variableName = true ->
  parse_guard ("if (" +:+ existsName +:+ " && Array.isArray(" +:+ variableName +:+ ")) {")
  = Some (existsName, variableName).
Proof.
  intros He Hv. unfold parse_guard.
  rewrite (strip_prefix_app "if (").
  rewrite (split_on_word " "%char "&& Array.isArray(" existsName (variableName +:+ ")) {")
             eq_refl He).
  change (variableName +:+ ")) {")
    with (variableName +:+ String ")"%char ") {" +:+ EmptyString).
  rewrite (split_on_word ")"%char ") {" variableName EmptyString eq_refl Hv).
  reflexivity.
Qed.

(** The block of a header at depth [d] is made of the deeper lines up to the
    first closing brace at depth [d]. *)
Lemma take_block_deeper (d : nat) (body after : list Line) (closer : Line) :
  List.Forall (fun l => d < line_depth l) body ->
  closes d closer = true ->
  take_block d (body ++ closer :: after) = Some (body, after).
Proof.
  intros Hbody Hcloser. induction Hbody as [| l body Hl _ IH]; simpl.
  - rewrite Hcloser. reflexivity.
  - unfold closes at 1.
    destruct (Nat.eqb_spec (line_depth l) d) as [Heq | _]; [lia |]. simpl.
    destruct (Nat.ltb_spec d (line_depth l)) as [_ | Hge]; [| lia].
    rewrite IH. reflexivity.
Qed.

Section Guard.
Context `{C : Collaborators}.

Lemma compile_lines_with_each (self : ArrayCompiler) (each : SchemaNode)
    (st s0 s1 s2 : CompilerState Extra) (l0 literal : LiteralCompiler)
    (element : list Line) :
  node_each self = Some each ->
  LiteralCompiler_new (field self) "array" (node_array_rules self) (references self) st
    = Ok (l0, s0) ->
  LiteralCompiler_compile (set_flags true true l0) s0 = Ok (literal, s1) ->
  dispatch_element self each literal s1 (entered self each literal s1) = Ok (tt, s2) ->
  lines (buffer s2) = lines (buffer (entered self each literal s1)) ++ element ->
  indentation (buffer s2) = indentation (buffer (entered self each literal s1)) ->
  exists st',
    compile self st = Ok (tt, st') /\
    lines (buffer st') =
      lines (buffer (entered self each literal s1)) ++ element ++
      [ line (S (indentation (buffer s1))) Statement "}";
        line (indentation (buffer s1)) Statement "}" ] /\
    indentation (buffer st') = indentation (buffer s1).
Proof.
  intros Heach Hnew Hliteral Hnode Helement Hindent.
  rewrite (compile_with_each self each st s0 s1 l0 literal Heach Hnew Hliteral).
  unfold mbind, Compile_bind at 1. rewrite Hnode.
  unfold_compile. unfold dedent. rewrite Hindent. cbn.
  eexists. split; [reflexivity |]. cbn. split; [| reflexivity].
  rewrite Helement. unfold entered. cbn. rewrite <- !app_assoc. reflexivity.
Qed.

(** C3.  For an array node with an element schema, what [compile] adds to
    the lines of the literal step is an empty line, the line
    [if (E && Array.isArray(V)) {] for the exists flag [E] and the value
    variable [V], then the declaration of the accumulator, the loop line and
    the element lines, all deeper, then the closing braces.  Read back from
    that text, the block of the guard holds everything up to its closing
    brace, the element lines included, and nothing follows it.  Run on a
    value that is absent or not an array, whatever the exists flag holds, the
    written guard skips its block: the state is left as the container-level
    rule chain left it, so no element-level code runs and no element-level
    violation is reported.  The names are assumed to be identifiers, and the
    element lines to be no shallower than where the element schema was
    dispatched. *)
Theorem compile_guards_the_element_block
    (self : ArrayCompiler) (each : SchemaNode) (st s0 s1 s2 : CompilerState Extra)
    (l0 literal : LiteralCompiler) (container element : list Line)
    (Heach : node_each self = Some each)
    (Hnew : LiteralCompiler_new (field self) "array" (node_array_rules self)
              (references self) st = Ok (l0, s0))
    (Hliteral : LiteralCompiler_compile (set_flags true true l0) s0 = Ok (literal, s1))
    (Hcontainer : lines (buffer s1) = lines (buffer st) ++ container)
    (Hnode : dispatch_element self each literal s1 (entered self each literal s1)
             = Ok (tt, s2))
    (Helement : lines (buffer s2) = lines (buffer (entered self each literal s1)) ++ element)
    (Hindent : indentation (buffer s2) = indentation (buffer (entered self each literal s1)))
    (Hdeep : List.Forall (fun l => S (S (indentation (buffer s1))) <= line_depth l) element)
    (Hexists : is_word (getVariableExistsName (variableName literal)) = true)
    (Hvalue : is_word (variableName literal) = true) :
  let d := indentation (buffer s1) in
  let v := variableName literal in
  let E := getVariableExistsName v in
  let inside :=
    line (S d) Expression
         ("const " +:+ out_name (outVariableCounter s1) +:+ " = "
            +:+ references_outVariable (references self)
            +:+ "[" +:+ pointerToExpression (field self) +:+ "] = []")
    :: loop_line each v (S d) (arrayIndexVariableCounter s1)
    :: line (S (S d)) Blank ""
    :: element ++ [line (S d) Statement "}"] in
  let guarded :=
    line d Statement ("if (" +:+ E +:+ " && Array.isArray(" +:+ v +:+ ")) {")
    :: inside ++ [line d Statement "}"] in
  (exists st',
      compile self st = Ok (tt, st') /\
      lines (buffer st') = lines (buffer st) ++ container ++ line d Blank "" :: guarded) /\
  read_guard guarded = Some (E, v, inside, []) /\
  (forall Store (run_lines : list Line -> Runtime Store -> Completion (Runtime Store))
          (rt : Runtime Store) (e value : Value),
      variables rt !! E = Some e ->
      variables rt !! v = Some value ->
      absent value = true \/ isArray value = false ->
      run_guard run_lines guarded rt = Returns rt).
Proof.
  intros d v E inside guarded.
  assert (Hread : read_guard guarded = Some (E, v, inside, [])).
  { unfold guarded, read_guard. cbn [line_kind line_text line_depth line].
    rewrite (parse_guard_text E v Hexists Hvalue).
    rewrite (take_block_deeper d inside [] (line d Statement "}")); [reflexivity | |].
    - unfold inside. repeat constructor; try (cbn; lia).
      apply Forall_app. split.
      + eapply List.Forall_impl; [| exact Hdeep]. intros l Hl. cbn in Hl. fold d in Hl. lia.
      + repeat constructor; try (cbn; lia).
    - unfold closes. cbn. rewrite Nat.eqb_refl. reflexivity. }
  split; [| split; [exact Hread |]].
  - destruct (compile_lines_with_each self each st s0 s1 s2 l0 literal element
                Heach Hnew Hliteral Hnode Helement Hindent) as (st' & Hrun & Hlines & _).
    exists st'. split; [exact Hrun |].
    rewrite Hlines. unfold entered. cbn [buffer lines]. rewrite Hcontainer.
    unfold guarded, inside, if_guard_text, out_declaration_text.
    fold d. fold v. fold E.
    cbn [app]. rewrite <- !app_assoc. reflexivity.
  - intros Store run_lines rt e value He Hv Hwrong.
    assert (Harray : isArray value = false).
    { destruct Hwrong as [H | H]; [apply absent_is_not_array |]; exact H. }
    unfold run_guard. rewrite Hread, He, Hv, Harray.
    destruct (truthy e); reflexivity.
Qed.

End Guard.

(** ** The container-level output assignment *)

Section Container_output.
Context `{C : Collaborators}.

(** C2, amended.  For an array node that has a rule or an element schema,
    the literal compiler that [compile] runs has [disableOutVariable] set
    exactly when the node has an element schema (and the value declaration
    forced): [compile] is the [compile] of that object, followed by the
    element block when there is one.  On the model of the
    literal step, the code of that object never assigns the container into
    the destination output when there is an element schema; when there is
    none, it assigns the value itself, on full success of the rule chain. *)
Theorem compile_disables_container_output_iff_each
    (self : ArrayCompiler) (st s0 s1 : CompilerState Extra) (l0 literal : LiteralCompiler)
    (Hsome : ~ compiles_to_nothing self)
    (Hnew : LiteralCompiler_new (field self) "array" (node_array_rules self)
              (references self) st = Ok (l0, s0))
    (Hliteral : LiteralCompiler_compile
                  (set_flags (bool_decide (is_Some (node_each self))) true l0) s0
                = Ok (literal, s1)) :
  let compiled := set_flags (bool_decide (is_Some (node_each self))) true l0 in
  (node_each self = None -> compile self st = Ok (tt, s1)) /\
  (forall each, node_each self = Some each ->
     compile self st =
       (dispatch_element self each literal s1;; endForLoop;; endIfGuard)
         (entered self each literal s1)) /\
  (disableOutVariable compiled = true <-> is_Some (node_each self)) /\
  forceValueDeclaration compiled = true /\
  (forall validations pointer aep key value dst dst',
      literal_step validations compiled pointer aep key value dst = Returns dst' ->
      (is_Some (node_each self) -> output dst' = output dst) /\
      (node_each self = None ->
         (length (reports dst') = length (reports dst) ->
            output dst' = <[key := value]> (output dst)) /\
         (length (reports dst') <> length (reports dst) ->
            output dst' = output dst))).
Proof.
  intros compiled. split; [| split; [| split; [| split]]].
  - intros Heach. rewrite Heach in Hliteral. simpl in Hliteral.
    apply (compile_without_each self st s0 s1 l0 literal); assumption.
  - intros each Heach. rewrite Heach in Hliteral. simpl in Hliteral.
    apply (compile_with_each self each st s0 s1 l0); assumption.
  - unfold compiled. simpl. rewrite bool_decide_eq_true. reflexivity.
  - reflexivity.
  - intros validations pointer aep key value dst dst' Hstep.
    unfold literal_step in Hstep. unfold compiled in Hstep. simpl in Hstep.
    rewrite andb_false_r in Hstep.
    destruct (if existsb allowUndefineds (literal_rules l0) && absent value
              then Returns (reports dst)
              else run_rules validations (literal_rules l0) value pointer aep (reports dst))
      as [er | e]; [| discriminate].
    injection Hstep as <-. simpl. split.
    + intros Heach. rewrite (bool_decide_eq_true_2 _ Heach). simpl.
      rewrite andb_false_r. reflexivity.
    + intros Heach. rewrite Heach. simpl. rewrite andb_true_r. split; intros Hlen.
      * rewrite (bool_decide_eq_true_2 _ Hlen). reflexivity.
      * rewrite (bool_decide_eq_false_2 _ Hlen). reflexivity.
Qed.

End Container_output.

(** C2, as stated for every array node, fails on the node that compiles to
    nothing: it has no element schema, and yet no literal step is run for
    it, so no container-level assignment is written.  The result of
    [compile] is not the result of the literal step. *)
Lemma compile_nothing_runs_no_literal_step :
  node_each example_nothing = None /\
  ~ exists l0 s0 literal s1,
      @LiteralCompiler_new sample (field example_nothing) "array"
        (node_array_rules example_nothing) (references example_nothing) (initial_state 1)
        = Ok (l0, s0) /\
      @LiteralCompiler_compile sample
        (set_flags (bool_decide (is_Some (node_each example_nothing))) true l0) s0
        = Ok (literal, s1) /\
      @compile sample example_nothing (initial_state 1) = Ok (tt, s1).
Proof.
  split; [reflexivity |].
  intros (l0 & s0 & literal & s1 & Hnew & Hliteral & Hcompile).
  rewrite (@compile_nothing sample example_nothing (initial_state 1)) in Hcompile
    by (split; reflexivity).
  cbn in Hnew. injection Hnew as <- <-.
  vm_compute in Hliteral. injection Hliteral as <- <-.
  discriminate Hcompile.
Qed.

(** ** [hasAsyncChildren] on the object graph *)

Section Object_graph.
Context {Extra : Type}.

Lemma hasAsyncChildren_at_unfold (fuel ref : nat) (w : World Extra) :
  hasAsyncChildren_at (S fuel) ref w =
  match schema w !! ref with
  | None => Dangling
  | Some node =>
      if finds_async (heap_rules node) then Done true w
      else match node with
           | HeapArray _ (Some each) => hasAsyncChildren_at fuel each w
           | HeapArray _ None => Done false w
           | HeapObject _ children => any_child_async_at fuel children w
           | HeapLiteral _ _ => Done false w
           end
  end.
Proof. reflexivity. Qed.

Lemma height_object_child rules children key child :
  In (key, child) children -> height child < height (SchemaObject rules children).
Proof.
  intros Hin. simpl. apply Nat.lt_succ_r.
  induction children as [| [k c] rest IH]; [destruct Hin |].
  destruct Hin as [Heq | Hin].
  - inversion Heq; subst. apply Nat.le_max_l.
  - etransitivity; [apply IH; exact Hin | apply Nat.le_max_r].
Qed.

(** On a graph that unfolds to a tree, fuel above the height of the tree is
    enough: the call ends with the answer of [hasAsyncChildren] on the tree
    and leaves the world as it found it. *)
Lemma hasAsyncChildren_at_tree (t : SchemaNode) :
  forall (w : World Extra) (ref fuel : nat),
    unfolds (schema w) ref t ->
    height t < fuel ->
    hasAsyncChildren_at fuel ref w = Done (hasAsyncChildren t) w.
Proof.
  induction t as [subtype rules | rules children IH | rules | rules each IH]
    using SchemaNode_tree_ind;
    intros w ref fuel Hunfolds Hfuel;
    (destruct fuel as [| fuel]; [lia |]);
    rewrite hasAsyncChildren_at_unfold, hasAsyncChildren_unfold;
    inversion Hunfolds as [? ? ? Hnode | ? ? refs ? Hnode Hchildren
                          | ? ? Hnode | ? ? ? ? Hnode Heach]; subst;
    rewrite Hnode; simpl heap_rules; simpl node_rules;
    destruct (finds_async rules); try reflexivity.
  - assert (Hbound : forall key child, In (key, child) children -> height child < fuel).
    { intros key child Hin.
      pose proof (height_object_child rules children key child Hin). lia. }
    clear Hfuel Hnode Hunfolds.
    induction Hchildren as [| [k r] [k' c] refs children [_ Hc] Hrest IHrest]; [reflexivity |].
    simpl in Hc. inversion IH as [| ? ? IHc IHchildren]; subst.
    simpl in IHc |- *. rewrite (IHc w r fuel Hc (Hbound k' c (or_introl eq_refl))).
    destruct (hasAsyncChildren c); [reflexivity |].
    apply (IHrest IHchildren). intros key child Hin. apply (Hbound key child). right. exact Hin.
  - apply IH; [exact Heach | simpl in Hfuel; lia].
Qed.

(** C9.  On every finite, acyclic schema (an object graph that unfolds to a
    tree), [hasAsyncChildren] terminates: past a bound on the fuel, which is
    the height of the tree plus one, the call ends.  It is read-only: it
    ends with a boolean, the answer on the tree, and with the schema objects
    and the compiler, buffer and counters included, exactly as they were. *)
Theorem hasAsyncChildren_terminates_and_is_read_only
    (w : World Extra) (ref : nat) (t : SchemaNode)
    (Hacyclic : unfolds (schema w) ref t) :
  exists bound : nat,
    forall fuel, bound <= fuel ->
      hasAsyncChildren_at fuel ref w = Done (hasAsyncChildren t) w.
Proof.
  exists (S (height t)). intros fuel Hfuel.
  apply hasAsyncChildren_at_tree; [exact Hacyclic | lia].
Qed.

End Object_graph.

(** ** The worked example *)

Lemma example_literal_step :
  @LiteralCompiler_new sample (field example_self) "array" (node_array_rules example_self)
    (references example_self) (initial_state 1) = Ok (example_l0, example_s0) /\
  @LiteralCompiler_compile sample (set_flags true true example_l0) example_s0
    = Ok (set_flags true true example_l0, example_s1).
Proof. split; reflexivity. Qed.

Lemma compile_nothing_example :
  @compile sample example_nothing (initial_state 1) = Ok (tt, initial_state 1).
Proof.
  apply (@compile_without_rules_and_each_changes_nothing sample example_nothing
           (initial_state 1)); reflexivity.
Defined.

Lemma compile_loop_form_example :
  (async_below example_each /\
   In (line 2 Statement "for (let [index_0] of val_0.entries()) {")
      (lines (buffer (@entered sample example_self example_each
                        (set_flags true true example_l0) example_s1)))) /\
  (~ async_below example_sync_each /\
   In (line 2 Statement "for (let index_0 = 0; index_0 < val_0.length; index_0++) {")
      (lines (buffer (@entered sample example_sync_self example_sync_each
                        (set_flags true true example_l0) example_s1)))).
Proof.
  assert (Hasync : async_below example_each).
  { apply hasAsyncChildren_true_iff. reflexivity. }
  assert (Hsync : ~ async_below example_sync_each).
  { intros H. apply hasAsyncChildren_true_iff in H. discriminate H. }
  split; (split; [assumption |]).
  - destruct (@compile_selects_loop_form_once sample example_self example_each
                (initial_state 1) example_s0 example_s1 example_l0
                (set_flags true true example_l0) eq_refl
                (proj1 example_literal_step) (proj2 example_literal_step))
      as [_ (guard & declaration & loop & Hlines & Hof & _)].
    rewrite Hlines. apply in_or_app. right.
    pose proof (proj2 Hof Hasync) as Hloop. subst loop.
    do 3 right. left. reflexivity.
  - destruct (@compile_selects_loop_form_once sample example_sync_self example_sync_each
                (initial_state 1) example_s0 example_s1 example_l0
                (set_flags true true example_l0) eq_refl
                (proj1 example_literal_step) (proj2 example_literal_step))
      as [_ (guard & declaration & loop & Hlines & _ & Hindex)].
    rewrite Hlines. apply in_or_app. right.
    pose proof (proj2 Hindex Hsync) as Hloop. subst loop.
    do 3 right. left. reflexivity.
Defined.

Lemma compile_fresh_names_example :
  arrayIndexVariableCounter (@entered sample example_self example_each
                               (set_flags true true example_l0) example_s1) = 1 /\
  (forall j, 0 < j -> index_name j <> "index_0") /\
  (forall j, 0 < j -> out_name j <> "out_0").
Proof.
  pose proof (@compile_declares_fresh_index_and_accumulator sample example_self example_each
                (initial_state 1) example_s0 example_s1 example_l0
                (set_flags true true example_l0) eq_refl
                (proj1 example_literal_step) (proj2 example_literal_step))
    as (_ & _ & _ & _ & Hi & _ & _ & Hindex & Hout).
  split; [exact Hi |]. split; [exact Hindex | exact Hout].
Defined.

Lemma compile_indentation_example :
  exists st',
    @compile sample example_self (initial_state 1) = Ok (tt, st') /\
    indentation (buffer st') = 1.
Proof.
  pose proof (@compile_restores_indentation sample
                sample_new_keeps_indentation sample_literal_keeps_indentation
                (fun f node => sample_compileNode_keeps_indentation node f)
                example_self (initial_state 1)) as H.
  eexists. split; [vm_compute; reflexivity |]. exact H.
Defined.

Lemma compile_guard_example :
  (exists st',
      @compile sample example_self (initial_state 1) = Ok (tt, st') /\
      lines (buffer st') =
        lines (buffer example_s1) ++ line 1 Blank "" :: example_guarded) /\
  isArray (VString "not-an-array") = false /\
  run_guard example_raising_lines example_guarded example_not_array
    = Returns example_not_array.
Proof.
  assert (Hdeep : List.Forall (fun l => 3 <= line_depth l) example_element).
  { repeat constructor. }
  destruct (@compile_guards_the_element_block sample example_self example_each
              (initial_state 1) example_s0 example_s1 example_s2 example_l0
              (set_flags true true example_l0) (lines (buffer example_s1)) example_element
              eq_refl (proj1 example_literal_step) (proj2 example_literal_step)
              eq_refl eq_refl eq_refl eq_refl Hdeep eq_refl eq_refl)
    as [(st' & Hrun & Hlines) [_ Hskip]].
  split; [exists st'; split; [exact Hrun | exact Hlines] |].
  split; [reflexivity |].
  exact (Hskip ErrorReporter example_raising_lines example_not_array
               (VBoolean true) (VString "not-an-array") eq_refl eq_refl
               (or_intror eq_refl)).
Defined.

Lemma compile_plain_example :
  @compile sample example_plain (initial_state 1) = Ok (tt, example_plain_s1).
Proof.
  assert (Hsome : ~ compiles_to_nothing example_plain) by (intros [H _]; discriminate).
  apply (@compile_disables_container_output_iff_each sample example_plain
           (initial_state 1) example_s0 example_plain_s1 example_l0
           (set_flags false true example_l0) Hsome eq_refl eq_refl).
  reflexivity.
Defined.

Lemma example_world_unfolds :
  unfolds (schema example_world) 0 (SchemaArray [example_array_rule] (Some example_each)).
Proof.
  apply unfolds_array_each with (each := 1); [reflexivity |].
  apply unfolds_literal. reflexivity.
Qed.

Lemma hasAsyncChildren_at_example :
  exists bound : nat,
    forall fuel, bound <= fuel ->
      hasAsyncChildren_at fuel 0 example_world = Done true example_world.
Proof.
  exact (hasAsyncChildren_terminates_and_is_read_only example_world 0
           (SchemaArray [example_array_rule] (Some example_each)) example_world_unfolds).
Defined.

(** On a schema with a cycle no fuel is enough. *)
Lemma hasAsyncChildren_at_cycle (fuel : nat) :
  hasAsyncChildren_at fuel 0 example_cyclic_world = OutOfFuel.
Proof.
  induction fuel as [| fuel IH]; [reflexivity |].
  rewrite hasAsyncChildren_at_unfold.
  change (schema example_cyclic_world !! 0)
    with (Some (HeapArray [example_array_rule] (Some 0))).
  exact IH.
Qed.

(** * Further properties *)

(** ** The rules and their metadata *)

(** X1.  Whatever the value, each of the two rules leaves the reports it
    found in place and adds at most one, at the current pointer and under
    the rule name its [compile()] declares. *)
Theorem validate_reports_under_the_compiled_name (value : Value) (ctx : Context) :
  (exists added,
      object_validate value ctx = Returns (errorReporter ctx ++ added) /\
      length added <= 1 /\
      List.Forall (fun r => report_rule r = name object_compile /\
                            report_pointer r = pointer ctx) added) /\
  (exists added,
      string_validate value ctx = Returns (errorReporter ctx ++ added) /\
      length added <= 1 /\
      List.Forall (fun r => report_rule r = name string_compile /\
                            report_pointer r = pointer ctx) added).
Proof.
  split.
  - unfold object_validate. destruct (object_rejects value).
    + eexists [_]. split; [reflexivity |]. split; [simpl; lia |].
      constructor; [split; reflexivity | constructor].
    + exists []. rewrite app_nil_r. split; [reflexivity |]. split; [simpl; lia | constructor].
  - unfold string_validate. destruct (string_rejects value).
    + eexists [_]. split; [reflexivity |]. split; [simpl; lia |].
      constructor; [split; reflexivity | constructor].
    + exists []. rewrite app_nil_r. split; [reflexivity |]. split; [simpl; lia | constructor].
Qed.

(** X2.  Neither rule tolerates an absent value: both declare
    [allowUndefineds: false], and on [undefined] and on [null] both report
    their violation. *)
Theorem rules_reject_absent_values (value : Value) (ctx : Context)
    (Habsent : absent value = true) :
  allowUndefineds object_compile = false /\
  allowUndefineds string_compile = false /\
  object_validate value ctx =
    Returns (report (pointer ctx) "object" "object validation failed"
                    (arrayExpressionPointer ctx) (errorReporter ctx)) /\
  string_validate value ctx =
    Returns (report (pointer ctx) "string" "string validation failed"
                    (arrayExpressionPointer ctx) (errorReporter ctx)).
Proof. destruct value; try discriminate Habsent; repeat split. Qed.

Lemma rules_reject_null :
  absent VNull = true /\
  object_validate VNull {| errorReporter := []; pointer := "profile";
                           arrayExpressionPointer := None |}
  = Returns [ {| report_pointer := "profile";
                 report_rule := "object";
                 report_message := "object validation failed";
                 report_arrayExpressionPointer := None |} ].
Proof.
  split; [reflexivity |].
  apply (rules_reject_absent_values VNull
           {| errorReporter := []; pointer := "profile"; arrayExpressionPointer := None |}
           eq_refl).
Defined.

(** X3.  No value passes both rules: whatever the value, the [object] rule
    or the [string] rule reports its violation. *)
Theorem object_or_string_rule_reports (value : Value) (ctx : Context) :
  object_validate value ctx =
    Returns (report (pointer ctx) "object" "object validation failed"
                    (arrayExpressionPointer ctx) (errorReporter ctx)) \/
  string_validate value ctx =
    Returns (report (pointer ctx) "string" "string validation failed"
                    (arrayExpressionPointer ctx) (errorReporter ctx)).
Proof. destruct value; try (left; reflexivity); right; reflexivity. Qed.

(** ** More on [hasAsyncChildren] *)

Lemma async_below_iff_rules_below (node : SchemaNode) :
  async_below node <-> exists rule, In rule (rules_below node) /\ async rule = true.
Proof.
  induction node as [subtype rules | rules children IH | rules | rules each IH]
    using SchemaNode_tree_ind; simpl; split.
  - intros H. inversion H; subst. exists rule. rewrite app_nil_r. split; assumption.
  - intros (rule & Hin & Hasync). rewrite app_nil_r in Hin.
    apply (async_here _ rule); assumption.
  - intros H. inversion H as [? rule Hin Hasync | | ? ? key child Hin Hchild]; subst.
    + exists rule. split; [apply in_or_app; left; exact Hin | exact Hasync].
    + rewrite List.Forall_forall in IH. apply (IH (key, child) Hin) in Hchild.
      destruct Hchild as (rule & Hrule & Hasync). exists rule. split; [| exact Hasync].
      apply in_or_app. right. apply in_flat_map. exists (key, child). split; assumption.
  - intros (rule & Hin & Hasync). apply in_app_or in Hin. destruct Hin as [Hin | Hin].
    + apply (async_here _ rule); assumption.
    + apply in_flat_map in Hin. destruct Hin as ([key child] & Hchild & Hin).
      apply (async_child _ _ key child Hchild).
      rewrite List.Forall_forall in IH. apply (IH (key, child) Hchild). exists rule.
      split; assumption.
  - intros H. inversion H; subst. exists rule. rewrite app_nil_r. split; assumption.
  - intros (rule & Hin & Hasync). rewrite app_nil_r in Hin.
    apply (async_here _ rule); assumption.
  - intros H. inversion H as [? rule Hin Hasync | ? ? Heach |]; subst.
    + exists rule. split; [apply in_or_app; left; exact Hin | exact Hasync].
    + apply IH in Heach. destruct Heach as (rule & Hin & Hasync).
      exists rule. split; [apply in_or_app; right; exact Hin | exact Hasync].
  - intros (rule & Hin & Hasync). apply in_app_or in Hin. destruct Hin as [Hin | Hin].
    + apply (async_here _ rule); assumption.
    + apply async_each. apply IH. exists rule. split; assumption.
Qed.

Lemma hasAsyncChildren_false_iff (node : SchemaNode) :
  hasAsyncChildren node = false <->
  forall rule, In rule (rules_below node) -> async rule = false.
Proof.
  pose proof (hasAsyncChildren_true_iff node) as Htrue.
  pose proof (async_below_iff_rules_below node) as Hrules.
  destruct (hasAsyncChildren node); split; intros H; try reflexivity; try discriminate.
  - exfalso. destruct (proj1 Hrules (proj1 Htrue eq_refl)) as (rule & Hin & Hasync).
    rewrite (H rule Hin) in Hasync. discriminate.
  - intros rule Hin. destruct (async rule) eqn:Hasync; [| reflexivity].
    exfalso.
    assert (Hbelow : async_below node) by (apply Hrules; exists rule; split; assumption).
    apply Htrue in Hbelow. discriminate.
Qed.

Lemma bool_eq_of_true_iff (a b : bool) : (a = true <-> b = true) -> a = b.
Proof. destruct a, b; intros [H1 H2]; try reflexivity; [symmetry; auto | auto]. Qed.

(** X5.  The answer of [hasAsyncChildren] does not depend on the order in
    which the rules of a node or the children of an object are enumerated:
    the early returns of its two loops change how much is visited, not what
    is answered. *)
Theorem hasAsyncChildren_ignores_enumeration_order
    (rules rules' : list CompiledRule) (children children' : list (string * SchemaNode))
    (Hrules : Permutation rules rules') (Hchildren : Permutation children children') :
  hasAsyncChildren (SchemaObject rules children)
    = hasAsyncChildren (SchemaObject rules' children') /\
  (forall each, hasAsyncChildren (SchemaArray rules each)
                = hasAsyncChildren (SchemaArray rules' each)) /\
  (forall subtype, hasAsyncChildren (SchemaLiteral subtype rules)
                   = hasAsyncChildren (SchemaLiteral subtype rules')).
Proof.
  assert (Hmove : forall (r r' : list CompiledRule) rule,
             Permutation r r' -> In rule r -> In rule r')
    by (intros r r' rule Hp; apply Permutation_in; exact Hp).
  assert (Hobject : forall r r' c c', Permutation r r' -> Permutation c c' ->
             async_below (SchemaObject r c) -> async_below (SchemaObject r' c')).
  { intros r r' c c' Hr Hc H.
    inversion H as [? rule Hin Hasync | | ? ? key child Hin Hchild]; subst.
    - apply (async_here _ rule); [apply (Hmove r r' rule Hr Hin) | exact Hasync].
    - apply (async_child _ _ key child); [| exact Hchild].
      apply (Permutation_in _ Hc Hin). }
  assert (Harray : forall r r' each, Permutation r r' ->
             async_below (SchemaArray r each) -> async_below (SchemaArray r' each)).
  { intros r r' each Hr H.
    inversion H as [? rule Hin Hasync | ? ? Heach |]; subst.
    - apply (async_here _ rule); [apply (Hmove r r' rule Hr Hin) | exact Hasync].
    - apply async_each. exact Heach. }
  assert (Hliteral : forall r r' subtype, Permutation r r' ->
             async_below (SchemaLiteral subtype r) -> async_below (SchemaLiteral subtype r')).
  { intros r r' subtype Hr H. inversion H as [? rule Hin Hasync | |]; subst.
    apply (async_here _ rule); [apply (Hmove r r' rule Hr Hin) | exact Hasync]. }
  split; [| split; [intros each | intros subtype]];
    apply bool_eq_of_true_iff; rewrite !hasAsyncChildren_true_iff; split.
  - apply Hobject; assumption.
  - apply Hobject; symmetry; assumption.
  - apply Harray; assumption.
  - apply Harray; symmetry; assumption.
  - apply Hliteral; assumption.
  - apply Hliteral; symmetry; assumption.
Qed.

Lemma hasAsyncChildren_swapped_children :
  hasAsyncChildren
    (SchemaObject [string_compile; example_unique_rule]
       [("a", example_each); ("b", SchemaLiteral "string" [])])
  = hasAsyncChildren
      (SchemaObject [example_unique_rule; string_compile]
         [("b", SchemaLiteral "string" []); ("a", example_each)]).
Proof.
  apply (hasAsyncChildren_ignores_enumeration_order
           [string_compile; example_unique_rule] [example_unique_rule; string_compile]
           [("a", example_each); ("b", SchemaLiteral "string" [])]
           [("b", SchemaLiteral "string" []); ("a", example_each)]);
    apply perm_swap.
Defined.

(** X7.  Asynchrony reaches every enclosing node: when [hasAsyncChildren]
    answers [true] on a node, it answers [true] on every node that has it as
    element schema or child, at any depth, so an array around such a node
    gets the [for ... of] loop line as well. *)
Theorem asynchrony_reaches_every_enclosing_node (inner outer : SchemaNode)
    (Hbelow : below inner outer) (Hasync : hasAsyncChildren inner = true) :
  hasAsyncChildren outer = true /\
  (forall v d i, loop_line outer v d i = line d Statement (for_of_text v (index_name i))).
Proof.
  assert (H : hasAsyncChildren outer = true).
  { apply hasAsyncChildren_true_iff. apply hasAsyncChildren_true_iff in Hasync.
    induction Hbelow as [| rules each _ IH | rules children key child Hin _ IH].
    - exact Hasync.
    - apply async_each. exact IH.
    - apply (async_child _ _ key child Hin). exact IH. }
  split; [exact H |]. intros v d i. unfold loop_line. rewrite H. reflexivity.
Qed.

Lemma asynchrony_reaches_the_outer_array :
  hasAsyncChildren
    (SchemaArray [] (Some (SchemaObject [] [("tags", SchemaArray [] (Some example_each))])))
  = true.
Proof.
  apply (asynchrony_reaches_every_enclosing_node example_each
           (SchemaArray [] (Some (SchemaObject [] [("tags", SchemaArray [] (Some example_each))])))).
  - apply below_each. apply (below_child _ _ _ "tags" (SchemaArray [] (Some example_each))).
    + left. reflexivity.
    + apply below_each. apply below_here.
  - reflexivity.
Defined.

Section Sync_rules.
Context `{C : Collaborators}.

(** X4.  The [object] and the [string] rule are synchronous.  For an array
    whose element schema holds no other rules, at any depth, once the
    literal step has returned, the loop line [compile] writes is the plain
    indexed [for]. *)
Theorem object_and_string_rules_give_the_indexed_loop
    (self : ArrayCompiler) (each : SchemaNode) (st s0 s1 : CompilerState Extra)
    (l0 literal : LiteralCompiler)
    (Heach : node_each self = Some each)
    (Hnew : LiteralCompiler_new (field self) "array" (node_array_rules self)
              (references self) st = Ok (l0, s0))
    (Hliteral : LiteralCompiler_compile (set_flags true true l0) s0 = Ok (literal, s1))
    (Hrules : forall rule, In rule (rules_below each) ->
                           rule = object_compile \/ rule = string_compile) :
  let d := indentation (buffer s1) in
  let v := variableName literal in
  hasAsyncChildren each = false /\
  compile self st =
    (dispatch_element self each literal s1;; endForLoop;; endIfGuard)
      (entered self each literal s1) /\
  lines (buffer (entered self each literal s1)) =
    lines (buffer s1) ++
    [ line d Blank "";
      line d Statement (if_guard_text (getVariableExistsName v) v);
      line (S d) Expression
           (out_declaration_text (out_name (outVariableCounter s1))
              (references_outVariable (references self))
              (pointerToExpression (field self)));
      line (S d) Statement (for_index_text v (index_name (arrayIndexVariableCounter s1)));
      line (S (S d)) Blank "" ].
Proof.
  intros d v.
  assert (H : hasAsyncChildren each = false).
  { apply hasAsyncChildren_false_iff. intros rule Hin.
    destruct (Hrules rule Hin) as [-> | ->]; reflexivity. }
  split; [exact H |].
  split; [apply (compile_with_each self each st s0 s1 l0); assumption |].
  unfold entered, loop_line. rewrite H. reflexivity.
Qed.

End Sync_rules.

Lemma compile_indexed_loop_example :
  In (line 2 Statement "for (let index_0 = 0; index_0 < val_0.length; index_0++) {")
     (lines (buffer (@entered sample example_sync_self example_sync_each
                       (set_flags true true example_l0) example_s1))).
Proof.
  assert (Hrules : forall rule, In rule (rules_below example_sync_each) ->
                                rule = object_compile \/ rule = string_compile).
  { simpl. intros rule [<- | [<- | []]]; [left | right]; reflexivity. }
  destruct (@object_and_string_rules_give_the_indexed_loop sample example_sync_self
              example_sync_each (initial_state 1) example_s0 example_s1 example_l0
              (set_flags true true example_l0) eq_refl
              (proj1 example_literal_step) (proj2 example_literal_step) Hrules)
    as (_ & _ & Hlines).
  rewrite Hlines. apply in_or_app. right. simpl. tauto.
Defined.

(** ** [hasAsyncChildren] on arbitrary schema graphs *)

Section Graph_answers.
Context {Extra : Type}.

Lemma async_reachable_here (h : gmap nat HeapNode) (ref : nat) (node : HeapNode) :
  h !! ref = Some node -> finds_async (heap_rules node) = true -> async_reachable h ref.
Proof.
  intros Hnode Hfinds. apply finds_async_true_iff in Hfinds.
  destruct Hfinds as (rule & Hin & Hasync).
  exists ref, node, rule. repeat split; try assumption. apply reachable_here.
Qed.

(** Without an asynchronous rule of its own, a node reaches one only through
    its element schema or one of its children. *)
Lemma async_reachable_step (h : gmap nat HeapNode) (ref : nat) (node : HeapNode) :
  h !! ref = Some node ->
  finds_async (heap_rules node) = false ->
  async_reachable h ref ->
  match node with
  | HeapArray _ (Some each) => async_reachable h each
  | HeapObject _ children =>
      exists key child, In (key, child) children /\ async_reachable h child
  | _ => False
  end.
Proof.
  intros Hnode Hfinds (ref' & node' & rule & Hreach & Hnode' & Hin & Hasync).
  inversion Hreach as [? | ? rules each ? Hlookup Hrest | ? rules children key child ? Hlookup Hchild Hrest];
    subst.
  - rewrite Hnode in Hnode'. injection Hnode' as <-.
    assert (finds_async (heap_rules node) = true)
      by (apply finds_async_true_iff; exists rule; split; assumption).
    congruence.
  - rewrite Hnode in Hlookup. injection Hlookup as ->.
    exists ref', node', rule. repeat split; assumption.
  - rewrite Hnode in Hlookup. injection Hlookup as ->.
    exists key, child. split; [exact Hchild |].
    exists ref', node', rule. repeat split; assumption.
Qed.

Lemma async_reachable_each (h : gmap nat HeapNode) (ref : nat) rules (each : nat) :
  h !! ref = Some (HeapArray rules (Some each)) ->
  async_reachable h each -> async_reachable h ref.
Proof.
  intros Hnode (ref' & node' & rule & Hreach & Hrest).
  exists ref', node', rule. split; [| exact Hrest].
  apply (reachable_each h ref rules each ref' Hnode Hreach).
Qed.

Lemma async_reachable_child (h : gmap nat HeapNode) (ref : nat) rules children key child :
  h !! ref = Some (HeapObject rules children) ->
  In (key, child) children ->
  async_reachable h child -> async_reachable h ref.
Proof.
  intros Hnode Hin (ref' & node' & rule & Hreach & Hrest).
  exists ref', node', rule. split; [| exact Hrest].
  apply (reachable_child h ref rules children key child ref' Hnode Hin Hreach).
Qed.

Lemma any_child_async_at_answers (fuel : nat) (children : list (string * nat)) :
  (forall ref (w : World Extra) b w',
      hasAsyncChildren_at fuel ref w = Done b w' ->
      w' = w /\ (b = true <-> async_reachable (schema w) ref)) ->
  forall (w : World Extra) b w',
    any_child_async_at fuel children w = Done b w' ->
    w' = w /\
    (b = true <->
     exists key child, In (key, child) children /\ async_reachable (schema w) child).
Proof.
  intros IH. induction children as [| [key child] rest IHrest]; intros w b w' Hdone.
  - injection Hdone as <- <-. split; [reflexivity |].
    split; [discriminate | intros (? & ? & [] & _)].
  - simpl in Hdone.
    destruct (hasAsyncChildren_at fuel child w) as [[|] wc | |] eqn:Hchild;
      try discriminate.
    + destruct (IH child w true wc Hchild) as [-> Hiff].
      injection Hdone as <- <-. split; [reflexivity |].
      split; [intros _ | reflexivity].
      exists key, child. split; [left; reflexivity | apply Hiff; reflexivity].
    + destruct (IH child w false wc Hchild) as [-> Hiff].
      destruct (IHrest w b w' Hdone) as [-> Hrest]. split; [reflexivity |].
      rewrite Hrest. split.
      * intros (k & c & Hin & Hc). exists k, c. split; [right; exact Hin | exact Hc].
      * intros (k & c & [Heq | Hin] & Hc).
        -- injection Heq as <- <-. apply Hiff in Hc. discriminate.
        -- exists k, c. split; assumption.
Qed.

(** X6.  On any schema graph, cyclic or not, whenever [hasAsyncChildren]
    ends, it has changed nothing and its answer is right: [true] exactly when
    an object with an asynchronous rule is reachable through element schemas
    and children.  Its early returns let it end on a cycle when it meets
    such a rule first. *)
Theorem hasAsyncChildren_at_answers_reachability
    (fuel ref : nat) (w w' : World Extra) (b : bool)
    (Hdone : hasAsyncChildren_at fuel ref w = Done b w') :
  w' = w /\ (b = true <-> async_reachable (schema w) ref).
Proof.
  revert ref w b w' Hdone.
  induction fuel as [| fuel IH]; intros ref w b w' Hdone; [discriminate |].
  rewrite hasAsyncChildren_at_unfold in Hdone.
  destruct (schema w !! ref) as [node |] eqn:Hnode; [| discriminate].
  destruct (finds_async (heap_rules node)) eqn:Hfinds.
  { injection Hdone as <- <-. split; [reflexivity |].
    split; [intros _ | reflexivity]. apply (async_reachable_here _ ref node); assumption. }
  pose proof (async_reachable_step (schema w) ref node Hnode Hfinds) as Hstep.
  destruct node as [subtype rules | rules children | rules [each |]].
  - injection Hdone as <- <-. split; [reflexivity |].
    split; [discriminate | intros H; destruct (Hstep H)].
  - destruct (any_child_async_at_answers fuel children IH w b w' Hdone) as [-> Hiff].
    split; [reflexivity |]. rewrite Hiff. split; [| exact Hstep].
    intros (key & child & Hin & Hchild).
    apply (async_reachable_child _ ref rules children key child); assumption.
  - destruct (IH each w b w' Hdone) as [-> Hiff]. split; [reflexivity |].
    rewrite Hiff. split; [| exact Hstep].
    apply (async_reachable_each _ ref rules each Hnode).
  - injection Hdone as <- <-. split; [reflexivity |].
    split; [discriminate | intros H; destruct (Hstep H)].
Qed.

End Graph_answers.

Lemma hasAsyncChildren_at_ends_on_a_cycle :
  hasAsyncChildren_at 1 0 example_cyclic_async_world = Done true example_cyclic_async_world /\
  async_reachable (schema example_cyclic_async_world) 0.
Proof.
  assert (Hdone : hasAsyncChildren_at 1 0 example_cyclic_async_world
                  = Done true example_cyclic_async_world) by reflexivity.
  split; [exact Hdone |].
  apply (hasAsyncChildren_at_answers_reachability 1 0 example_cyclic_async_world
           example_cyclic_async_world true Hdone).
  reflexivity.
Defined.

(** ** Failures, and what [compile] leaves of the state *)

Lemma extends_refl {Extra : Type} (s : CompilerState Extra) : extends s s.
Proof. split; [exists []; rewrite app_nil_r; reflexivity | split; lia]. Qed.

Lemma extends_trans {Extra : Type} (s s' s'' : CompilerState Extra) :
  extends s s' -> extends s' s'' -> extends s s''.
Proof.
  intros ([a Ha] & Hi & Ho) ([a' Ha'] & Hi' & Ho').
  split; [exists (a ++ a'); rewrite Ha', Ha, app_assoc; reflexivity | split; lia].
Qed.

Section Compile_outcomes.
Context `{C : Collaborators}.

Lemma closing_inv (s2 st' : CompilerState Extra) :
  (endForLoop;; endIfGuard) s2 = Ok (tt, st') ->
  lines (buffer st') =
    lines (buffer s2) ++
    [ line (S (indentation (buffer st'))) Statement "}";
      line (indentation (buffer st')) Statement "}" ] /\
  indentation (buffer s2) = S (S (indentation (buffer st'))) /\
  arrayIndexVariableCounter st' = arrayIndexVariableCounter s2 /\
  outVariableCounter st' = outVariableCounter s2 /\
  extra st' = extra s2.
Proof.
  unfold_compile. unfold dedent.
  destruct (indentation (buffer s2)) as [| [| n]] eqn:Hd; cbn; try discriminate.
  intros H. injection H as <-. cbn.
  rewrite <- app_assoc. repeat split; reflexivity.
Qed.

Lemma entered_extends (self : ArrayCompiler) (each : SchemaNode)
    (literal : LiteralCompiler) (s1 : CompilerState Extra) :
  extends s1 (entered self each literal s1).
Proof. split; [eexists; reflexivity | split; simpl; lia]. Qed.

(** How a run of [compile] that returns was made. *)
Lemma compile_ok_inv (self : ArrayCompiler) (st st' : CompilerState Extra) :
  compile self st = Ok (tt, st') ->
  (compiles_to_nothing self /\ st' = st) \/
  exists l0 s0 literal s1,
    LiteralCompiler_new (field self) "array" (node_array_rules self) (references self) st
      = Ok (l0, s0) /\
    LiteralCompiler_compile
      (set_flags (bool_decide (is_Some (node_each self))) true l0) s0 = Ok (literal, s1) /\
    ((node_each self = None /\ st' = s1) \/
     exists each s2,
       node_each self = Some each /\
       dispatch_element self each literal s1 (entered self each literal s1) = Ok (tt, s2) /\
       (endForLoop;; endIfGuard) s2 = Ok (tt, st')).
Proof.
  intros Hrun.
  destruct (decide (compiles_to_nothing self)) as [Hnothing | Hsome].
  { left. rewrite (compile_nothing self st Hnothing) in Hrun. injection Hrun as <-.
    split; [exact Hnothing | reflexivity]. }
  right.
  destruct (LiteralCompiler_new (field self) "array" (node_array_rules self)
              (references self) st) as [[l0 s0] | reason] eqn:Hnew.
  2: { unfold compile in Hrun. rewrite (compile_guard_false self Hsome) in Hrun.
       unfold mbind, Compile_bind at 1 in Hrun. rewrite Hnew in Hrun. discriminate. }
  destruct (LiteralCompiler_compile
              (set_flags (bool_decide (is_Some (node_each self))) true l0) s0)
    as [[literal s1] | reason] eqn:Hliteral.
  2: { unfold compile in Hrun. rewrite (compile_guard_false self Hsome) in Hrun.
       unfold mbind, Compile_bind at 1 in Hrun. rewrite Hnew in Hrun.
       unfold Compile_bind at 1 in Hrun. rewrite Hliteral in Hrun. discriminate. }
  exists l0, s0, literal, s1. split; [reflexivity |]. split; [exact Hliteral |].
  destruct (node_each self) as [each |] eqn:Heach.
  - right. simpl in Hliteral.
    rewrite (compile_with_each self each st s0 s1 l0 literal Heach Hnew Hliteral) in Hrun.
    unfold mbind, Compile_bind at 1 in Hrun.
    destruct (dispatch_element self each literal s1 (entered self each literal s1))
      as [[[] s2] | reason] eqn:Hnode; [| discriminate].
    exists each, s2. split; [reflexivity |]. split; [exact Hnode | exact Hrun].
  - left. simpl in Hliteral.
    rewrite (compile_without_each self st s0 s1 l0 literal Hsome Heach Hnew Hliteral) in Hrun.
    injection Hrun as <-. split; reflexivity.
Qed.

Lemma compile_extends (self : ArrayCompiler) :
  (forall f subtype rules refs, only_extends (LiteralCompiler_new f subtype rules refs)) ->
  (forall l, only_extends (LiteralCompiler_compile l)) ->
  (forall each, node_each self = Some each ->
     forall f parents referenceVariable outVariable,
       only_extends (compileNode f each parents referenceVariable outVariable)) ->
  only_extends (compile self).
Proof.
  intros new_extends literal_extends compileNode_extends st [] st' Hrun.
  destruct (compile_ok_inv self st st' Hrun)
    as [[_ ->] | (l0 & s0 & literal & s1 & Hnew & Hliteral & Hrest)];
    [apply extends_refl |].
  apply (extends_trans st s0); [apply (new_extends _ _ _ _ _ _ _ Hnew) |].
  apply (extends_trans s0 s1); [apply (literal_extends _ _ _ _ Hliteral) |].
  destruct Hrest as [[_ ->] | (each & s2 & Heach & Hnode & Hclose)]; [apply extends_refl |].
  apply (extends_trans s1 (entered self each literal s1)); [apply entered_extends |].
  apply (extends_trans _ s2); [apply (compileNode_extends each Heach _ _ _ _ _ _ _ Hnode) |].
  destruct (closing_inv s2 st' Hclose) as (Hlines & _ & Hi & Ho & _).
  split; [eexists; exact Hlines | split; lia].
Qed.

(** X9.  [compile] only extends the state: assuming its collaborators keep
    the lines already in the buffer, in order, and never lower a counter,
    every run of [compile] that returns has appended to the buffer, removed
    or rewritten no line, and lowered no counter. *)
Theorem compile_only_extends_the_state
    (Hnew : forall f subtype rules refs,
        only_extends (LiteralCompiler_new f subtype rules refs))
    (Hliteral : forall l, only_extends (LiteralCompiler_compile l))
    (Hnode : forall f node parents referenceVariable outVariable,
        only_extends (compileNode f node parents referenceVariable outVariable))
    (self : ArrayCompiler) (st st' : CompilerState Extra)
    (Hrun : compile self st = Ok (tt, st')) :
  (exists added, lines (buffer st') = lines (buffer st) ++ added) /\
  arrayIndexVariableCounter st <= arrayIndexVariableCounter st' /\
  outVariableCounter st <= outVariableCounter st'.
Proof.
  apply (compile_extends self Hnew Hliteral) with (a := tt); [| exact Hrun].
  intros each _ f parents referenceVariable outVariable. apply Hnode.
Qed.

(** X10.  The names [compile] draws are not drawn again: assuming the
    dispatched element compilation never lowers a counter, when [compile]
    returns both counters are past the values it drew its index variable and
    its accumulator from, so whatever is drawn from them later in the pass
    has another name. *)
Theorem names_drawn_by_compile_are_not_drawn_again
    (Hnode : forall f node parents referenceVariable outVariable,
        only_extends (compileNode f node parents referenceVariable outVariable))
    (self : ArrayCompiler) (each : SchemaNode) (st s0 s1 st' : CompilerState Extra)
    (l0 literal : LiteralCompiler)
    (Heach : node_each self = Some each)
    (Hnew : LiteralCompiler_new (field self) "array" (node_array_rules self)
              (references self) st = Ok (l0, s0))
    (Hliteral : LiteralCompiler_compile (set_flags true true l0) s0 = Ok (literal, s1))
    (Hrun : compile self st = Ok (tt, st')) :
  arrayIndexVariableCounter s1 < arrayIndexVariableCounter st' /\
  outVariableCounter s1 < outVariableCounter st' /\
  (forall j, arrayIndexVariableCounter st' <= j ->
             index_name j <> index_name (arrayIndexVariableCounter s1)) /\
  (forall j, outVariableCounter st' <= j ->
             out_name j <> out_name (outVariableCounter s1)).
Proof.
  rewrite (compile_with_each self each st s0 s1 l0 literal Heach Hnew Hliteral) in Hrun.
  unfold mbind, Compile_bind at 1 in Hrun.
  destruct (dispatch_element self each literal s1 (entered self each literal s1))
    as [[[] s2] | reason] eqn:Hdispatch; [| discriminate].
  destruct (Hnode _ _ _ _ _ _ _ _ Hdispatch) as (_ & Hi & Ho). simpl in Hi, Ho.
  destruct (closing_inv s2 st' Hrun) as (_ & _ & Hi' & Ho' & _).
  assert (Hlt : arrayIndexVariableCounter s1 < arrayIndexVariableCounter st') by lia.
  assert (Hlt' : outVariableCounter s1 < outVariableCounter st') by lia.
  split; [exact Hlt |]. split; [exact Hlt' |]. split.
  - intros j Hj Heq. apply index_name_inj in Heq. lia.
  - intros j Hj Heq. apply out_name_inj in Heq. lia.
Qed.

End Compile_outcomes.

(** The sample orchestrator only extends the state. *)
Lemma sample_new_only_extends f subtype rules refs :
  @only_extends sample _ (sample_LiteralCompiler_new f subtype rules refs).
Proof.
  intros s a s' H. injection H as <- <-.
  split; [exists []; cbn; rewrite app_nil_r; reflexivity | split; simpl; lia].
Qed.

Lemma sample_write_rules_only_extends variableName rules :
  @only_extends sample _ (sample_write_rules variableName rules).
Proof.
  induction rules as [| rule rest IH]; intros s a s' H.
  - injection H as <- <-. apply extends_refl.
  - simpl in H. apply IH in H. refine (extends_trans _ _ _ _ H).
    split; [eexists; reflexivity | split; simpl; lia].
Qed.

Lemma sample_literal_only_extends l :
  @only_extends sample _ (sample_LiteralCompiler_compile l).
Proof.
  intros s a s' H. unfold sample_LiteralCompiler_compile in H.
  destruct (bool_decide (length (literal_rules l) = 0) && negb (forceValueDeclaration l)).
  { injection H as <- <-. apply extends_refl. }
  unfold mbind, Compile_bind in H. cbn in H.
  destruct (sample_write_rules (variableName l) (literal_rules l) _)
    as [[[] s2] |] eqn:Hrules; [| discriminate].
  apply sample_write_rules_only_extends in Hrules.
  assert (Hfirst : extends s s2).
  { refine (extends_trans _ _ _ _ Hrules).
    split; [eexists; cbn; rewrite <- app_assoc; reflexivity | split; simpl; lia]. }
  destruct (disableOutVariable l); cbn in H; injection H as <- <-; [exact Hfirst |].
  refine (extends_trans _ _ _ Hfirst _).
  split; [eexists; reflexivity | split; simpl; lia].
Qed.

Lemma sample_compileNode_only_extends node :
  forall f parents referenceVariable outVariable,
    @only_extends sample _ (sample_compileNode f node parents referenceVariable outVariable).
Proof.
  induction node as [subtype rules | rules children _ | rules | rules each IH]
    using SchemaNode_tree_ind; intros f parents referenceVariable outVariable s a s' H.
  - simpl in H. unfold mbind, Compile_bind in H. cbn in H.
    destruct (sample_LiteralCompiler_compile _ _) as [[l s2] |] eqn:Hl; [| discriminate].
    apply sample_literal_only_extends in Hl. injection H as <- <-.
    refine (extends_trans _ _ _ _ Hl). split; [eexists [] | split; simpl; lia].
    cbn. rewrite app_nil_r. reflexivity.
  - simpl in H. unfold mbind, Compile_bind in H. cbn in H.
    destruct (sample_LiteralCompiler_compile _ _) as [[l s2] |] eqn:Hl; [| discriminate].
    apply sample_literal_only_extends in Hl. injection H as <- <-.
    refine (extends_trans _ _ _ _ Hl). split; [eexists [] | split; simpl; lia].
    cbn. rewrite app_nil_r. reflexivity.
  - change (sample_compileNode f (SchemaArray rules None) parents referenceVariable outVariable)
      with (@compile sample
              {| field := f; node_array_rules := rules; node_each := None;
                 references := {| references_outVariable := outVariable;
                                  references_referenceVariable := referenceVariable;
                                  references_parentPointer := parents |} |}) in H.
    revert H. apply (@compile_extends sample);
      [apply sample_new_only_extends | apply sample_literal_only_extends |].
    intros each Heach. discriminate.
  - change (sample_compileNode f (SchemaArray rules (Some each)) parents referenceVariable
              outVariable)
      with (@compile sample
              {| field := f; node_array_rules := rules; node_each := Some each;
                 references := {| references_outVariable := outVariable;
                                  references_referenceVariable := referenceVariable;
                                  references_parentPointer := parents |} |}) in H.
    revert H. apply (@compile_extends sample);
      [apply sample_new_only_extends | apply sample_literal_only_extends |].
    intros each' Heach. injection Heach as <-. exact IH.
Qed.

Lemma example_compile_returns :
  @compile sample example_self (initial_state 1) = Ok (tt, example_final).
Proof. reflexivity. Qed.

Lemma compile_extends_example :
  (exists added, lines (buffer example_final) = lines (buffer (initial_state 1)) ++ added) /\
  arrayIndexVariableCounter (initial_state 1) <= arrayIndexVariableCounter example_final /\
  outVariableCounter (initial_state 1) <= outVariableCounter example_final.
Proof.
  apply (@compile_only_extends_the_state sample
           sample_new_only_extends sample_literal_only_extends
           (fun f node => sample_compileNode_only_extends node f)
           example_self (initial_state 1) example_final example_compile_returns).
Defined.

Lemma compile_names_example :
  arrayIndexVariableCounter example_s1 < arrayIndexVariableCounter example_final /\
  index_name (arrayIndexVariableCounter example_final) <> "index_0".
Proof.
  destruct (@names_drawn_by_compile_are_not_drawn_again sample
              (fun f node => sample_compileNode_only_extends node f)
              example_self example_each (initial_state 1) example_s0 example_s1 example_final
              example_l0 (set_flags true true example_l0) eq_refl
              (proj1 example_literal_step) (proj2 example_literal_step)
              example_compile_returns)
    as (Hlt & _ & Hindex & _).
  split; [exact Hlt | apply Hindex; apply Nat.le_refl].
Defined.
